(** * ChallengeIA: question generation and answer validation (src/home.py)

    A shallow embedding of the text pipeline of [home.py]: PDF text
    extraction, chunking, the question loop, candidate answers, text
    normalisation and the similarity test of the answer validator.

    Conventions.
    - A Python [str] is a list of characters; a character is a code point
      below 256 (type [ascii]), so [len], slicing and indexing count code
      points exactly as Python does on such strings.
    - Python integers are [Z].
    - The float [2.0 * matches / length] is kept as the exact rational it
      rounds; for operands below 2^53 the comparison with the float literal
      [0.8] agrees with the comparison of the exact quotient with 4/5.
    - The external collaborators ([fitz], the two [transformers] pipelines,
      [random]) are parameters; every call to one of them is recorded in a
      trace. *)

From Stdlib Require Import ZArith QArith Ascii String List Lia.
From stdpp Require Import base option gmap list strings sorting pretty.

Local Open Scope Z_scope.

(** ** Python strings *)

Module PyStr.

Abbreviation str := (list ascii).

(** A string literal, for examples. *)
Definition s (lit : string) : str := list_ascii_of_string lit.

Arguments s : simpl never.

Definition len {A} (l : list A) : Z := Z.of_nat (length l).

Definition ord (c : ascii) : Z := Z.of_nat (nat_of_ascii c).

(** [str.isspace] on one character: the code points below 256 that
    Python treats as whitespace. *)
Definition isspace (c : ascii) : bool :=
  let n := ord c in
  ((9 <=? n) && (n <=? 13)) || ((28 <=? n) && (n <=? 32))
  || (n =? 133) || (n =? 160).

(** [str.lower] on one character: A-Z, and the Latin-1 capitals
    U+00C0..U+00DE without the multiplication sign U+00D7. *)
Definition lower_char (c : ascii) : ascii :=
  let n := ord c in
  if ((65 <=? n) && (n <=? 90))
     || ((192 <=? n) && (n <=? 222) && negb (n =? 215))
  then ascii_of_nat (Z.to_nat (n + 32)) else c.

Definition lower (t : str) : str := map lower_char t.

(** [t.lstrip()], [t.rstrip()], [t.strip()] with no argument. *)
Fixpoint lstrip (t : str) : str :=
  match t with
  | c :: t' => if isspace c then lstrip t' else t
  | [] => []
  end.

Definition rstrip (t : str) : str := rev (lstrip (rev t)).

Definition strip (t : str) : str := rstrip (lstrip t).

(** [t.endswith(suffix)]. *)
Definition endswith (t suffix : str) : bool :=
  bool_decide (drop (length t - length suffix) t = suffix).

(** [not t] on a string: true exactly on the empty string. *)
Definition is_empty (t : str) : bool :=
  match t with [] => true | _ => false end.

(** [t[lo:hi]] for bounds that are not negative. *)
Definition slice {A} (t : list A) (lo hi : Z) : list A :=
  take (Z.to_nat hi - Z.to_nat lo) (drop (Z.to_nat lo) t).

(** [t[i]]: a negative index counts from the end, [None] stands for
    IndexError. *)
Definition getitem {A} (t : list A) (i : Z) : option A :=
  if i <? 0
  then (if len t + i <? 0 then None else t !! Z.to_nat (len t + i))
  else t !! Z.to_nat i.

(** [enumerate(t)]. *)
Fixpoint enumerate_from {A} (i : Z) (t : list A) : list (Z * A) :=
  match t with
  | [] => []
  | x :: t' => (i, x) :: enumerate_from (i + 1) t'
  end.

Definition enumerate {A} (t : list A) : list (Z * A) := enumerate_from 0 t.

(** [range(start, stop, step)] for a positive step. *)
Definition range (start stop step : Z) : list Z :=
  map (fun k => start + Z.of_nat k * step)
      (seq 0 (Z.to_nat ((stop - start + step - 1) / step))).

(** [sep.join(parts)]. *)
Fixpoint join (sep : str) (parts : list str) : str :=
  match parts with
  | [] => []
  | [p] => p
  | p :: rest => p ++ sep ++ join sep rest
  end.

End PyStr.

Import PyStr.

(** ** difflib.SequenceMatcher, as [is_answer_correct] calls it

    [SequenceMatcher(None, a, b)]: no junk predicate, [autojunk] left at
    its default [True].  The definitions follow [Lib/difflib.py] of
    CPython 3.11, method by method: [__chain_b], [find_longest_match],
    [get_matching_blocks], [ratio] and [_calculate_ratio]. *)

Module Difflib.

Definition Match : Type := Z * Z * Z.

Record SequenceMatcher := {
  seq_a : str;
  seq_b : str;
  b2j : gmap ascii (list Z);
  bjunk : gset ascii;
  bpopular : gset ascii
}.

(** [indices = b2j.setdefault(elt, []); indices.append(i)] *)
Definition b2j_add (m : gmap ascii (list Z)) (ie : Z * ascii) : gmap ascii (list Z) :=
  <[ ie.2 := default [] (m !! ie.2) ++ [ie.1] ]> m.

(** The elements occurring more than [ntest] times. *)
Definition popular_of (ntest : Z) (m : gmap ascii (list Z)) : gset ascii :=
  map_fold (fun elt idxs popular =>
              if ntest <? len idxs then {[ elt ]} ∪ popular else popular) ∅ m.

Definition purge (popular : gset ascii) (m : gmap ascii (list Z)) : gmap ascii (list Z) :=
  set_fold (fun elt m' => delete elt m') m popular.

(** [__chain_b] with [isjunk = None]: the junk set stays empty; with
    200 elements or more the popular ones leave [b2j]. *)
Definition chain_b (a b : str) : SequenceMatcher :=
  let m := foldl b2j_add ∅ (enumerate b) in
  let n := len b in
  if 200 <=? n then
    let ntest := n / 100 + 1 in
    let popular := popular_of ntest m in
    {| seq_a := a; seq_b := b; b2j := purge popular m; bjunk := ∅; bpopular := popular |}
  else
    {| seq_a := a; seq_b := b; b2j := m; bjunk := ∅; bpopular := ∅ |}.

Definition new_matcher (a b : str) : SequenceMatcher := chain_b a b.

Section FindLongestMatch.

Variable sm : SequenceMatcher.
Variables alo ahi blo bhi : Z.

Definition isbjunk (c : option ascii) : bool :=
  match c with
  | Some x => bool_decide (x ∈ bjunk sm)
  | None => false
  end.

(** [a[i] == b[j]]; both reads are in range wherever the loops reach
    them, an index out of range compares unequal. *)
Definition same_elt (i j : Z) : bool :=
  match getitem (seq_a sm) i, getitem (seq_b sm) j with
  | Some x, Some y => bool_decide (x = y)
  | _, _ => false
  end.

(** The body of [for j in b2j.get(a[i], nothing)]; [break] ends the
    loop, [continue] skips one index. *)
Fixpoint scan_row (i : Z) (j2len : gmap Z Z) (js : list Z)
    (newj2len : gmap Z Z) (best : Match) : gmap Z Z * Match :=
  match js with
  | [] => (newj2len, best)
  | j :: js' =>
      if j <? blo then scan_row i j2len js' newj2len best
      else if bhi <=? j then (newj2len, best)
      else
        let k := default 0 (j2len !! (j - 1)) + 1 in
        let '(besti, bestj, bestsize) := best in
        scan_row i j2len js' (<[ j := k ]> newj2len)
          (if bestsize <? k then (i - k + 1, j - k + 1, k) else best)
  end.

Definition row_indices (i : Z) : list Z :=
  match getitem (seq_a sm) i with
  | Some x => default [] (b2j sm !! x)
  | None => []
  end.

(** One turn of [for i in range(alo, ahi)]. *)
Definition scan_step (st : gmap Z Z * Match) (i : Z) : gmap Z Z * Match :=
  scan_row i st.1 (row_indices i) ∅ st.2.

Definition scan : gmap Z Z * Match :=
  foldl scan_step (∅, (alo, blo, 0)) (seqZ alo (ahi - alo)).

(** The two kinds of [while] loop that grow the block; [junk] tells
    whether the loop asks for junk or for non-junk elements.  The loop
    towards the front runs at most [besti - alo] times and the loop
    towards the back at most [ahi - (besti + bestsize)] times, which is
    the fuel they get. *)
Fixpoint grow_front (fuel : nat) (junk : bool) (best : Match) : Match :=
  match fuel with
  | O => best
  | S fuel' =>
      let '(besti, bestj, bestsize) := best in
      if (alo <? besti) && (blo <? bestj)
         && eqb junk (isbjunk (getitem (seq_b sm) (bestj - 1)))
         && same_elt (besti - 1) (bestj - 1)
      then grow_front fuel' junk (besti - 1, bestj - 1, bestsize + 1)
      else best
  end.

Fixpoint grow_back (fuel : nat) (junk : bool) (best : Match) : Match :=
  match fuel with
  | O => best
  | S fuel' =>
      let '(besti, bestj, bestsize) := best in
      if (besti + bestsize <? ahi) && (bestj + bestsize <? bhi)
         && eqb junk (isbjunk (getitem (seq_b sm) (bestj + bestsize)))
         && same_elt (besti + bestsize) (bestj + bestsize)
      then grow_back fuel' junk (besti, bestj, bestsize + 1)
      else best
  end.

Definition while_front (junk : bool) (best : Match) : Match :=
  grow_front (Z.to_nat (best.1.1 - alo)) junk best.

Definition while_back (junk : bool) (best : Match) : Match :=
  grow_back (Z.to_nat (ahi - (best.1.1 + best.2))) junk best.

Definition find_longest_match : Match :=
  let best := scan.2 in
  let best := while_front false best in
  let best := while_back false best in
  let best := while_front true best in
  while_back true best.

End FindLongestMatch.

(** [tuple] comparison, as [list.sort] uses it on the blocks. *)
Definition match_le (x y : Match) : Prop :=
  x.1.1 < y.1.1
  \/ (x.1.1 = y.1.1 /\ (x.1.2 < y.1.2 \/ (x.1.2 = y.1.2 /\ x.2 <= y.2))).

#[local] Instance match_le_dec : RelDecision match_le :=
  fun x y =>
    decide (x.1.1 < y.1.1
            \/ (x.1.1 = y.1.1 /\ (x.1.2 < y.1.2 \/ (x.1.2 = y.1.2 /\ x.2 <= y.2)))).

(** The [while queue:] loop.  The head of [queue] is the element
    [queue.pop()] takes, so [queue.append] is a cons.  [None]: the fuel
    ran out. *)
Fixpoint blocks_loop (sm : SequenceMatcher) (fuel : nat)
    (queue : list (Z * Z * Z * Z)) (matching_blocks : list Match)
    : option (list Match) :=
  match queue with
  | [] => Some matching_blocks
  | (alo, ahi, blo, bhi) :: queue =>
      match fuel with
      | O => None
      | S fuel' =>
          let x := find_longest_match sm alo ahi blo bhi in
          let '(i, j, k) := x in
          if k =? 0 then blocks_loop sm fuel' queue matching_blocks
          else
            let queue := if (alo <? i) && (blo <? j)
                         then (alo, i, blo, j) :: queue else queue in
            let queue := if (i + k <? ahi) && (j + k <? bhi)
                         then (i + k, ahi, j + k, bhi) :: queue else queue in
            blocks_loop sm fuel' queue (matching_blocks ++ [x])
      end
  end.

(** The loop that collapses adjacent blocks. *)
Definition collapse_step (st : Match * list Match) (x : Match) : Match * list Match :=
  let '((i1, j1, k1), non_adjacent) := st in
  let '(i2, j2, k2) := x in
  if (i1 + k1 =? i2) && (j1 + k1 =? j2)
  then ((i1, j1, k1 + k2), non_adjacent)
  else ((i2, j2, k2),
        if k1 =? 0 then non_adjacent else non_adjacent ++ [(i1, j1, k1)]).

Definition collapse (matching_blocks : list Match) : list Match :=
  let '((i1, j1, k1), non_adjacent) :=
    foldl collapse_step ((0, 0, 0), []) matching_blocks in
  if k1 =? 0 then non_adjacent else non_adjacent ++ [(i1, j1, k1)].

(** Every turn of the queue loop either drops a window or replaces it
    by windows that are strictly shorter in total, so twice the length of
    [a] plus one turns are enough ([blocks_loop_terminates]). *)
Definition blocks_fuel (sm : SequenceMatcher) : nat :=
  S (2 * length (seq_a sm)).

Definition get_matching_blocks (sm : SequenceMatcher) : option (list Match) :=
  let la := len (seq_a sm) in
  let lb := len (seq_b sm) in
  matching_blocks ← blocks_loop sm (blocks_fuel sm) [(0, la, 0, lb)] [];
  Some (collapse (merge_sort match_le matching_blocks) ++ [(la, lb, 0)]).

(** [_calculate_ratio] *)
Definition calculate_ratio (matches length : Z) : Q :=
  if length =? 0 then 1%Q
  else (inject_Z 2 * inject_Z matches / inject_Z length)%Q.

Definition sum_sizes (blocks : list Match) : Z :=
  foldl (fun acc (triple : Match) => acc + triple.2) 0 blocks.

Definition ratio (sm : SequenceMatcher) : option Q :=
  blocks ← get_matching_blocks sm;
  Some (calculate_ratio (sum_sizes blocks) (len (seq_a sm) + len (seq_b sm))).

End Difflib.


(** ** The application: src/home.py *)

Module Home.

(** *** Exceptions, results and the trace of external calls *)

(** The exceptions the handlers meet: FastAPI's [HTTPException] and any
    other Python exception, kept with its class name and message. *)
Inductive Exn :=
| HTTPException (status_code : Z) (detail : str)
| PyError (class_name message : str).

(** The outcome of running a piece of the program.  [OutOfFuel] is the
    model's own: it marks a loop that was cut short, and
    [blocks_loop_terminates] shows that it never shows up. *)
Inductive result (A : Type) :=
| Ok (a : A)
| Raise (e : Exn)
| OutOfFuel.

Arguments Ok {A} a.
Arguments Raise {A} e.
Arguments OutOfFuel {A}.

(** One entry per call that leaves the program. *)
Inductive Event :=
| EvRead (content : str)
| EvFitzOpen (stream : str)
| EvGetText (page : nat)
| EvGenerator (prompt : str) (max_length num_return_sequences : Z)
| EvRandomChoice
| EvQA (question context : str).

(** [UploadFile]: the declared file name (it may be missing) and the
    bytes [read()] delivers. *)
Record UploadFile := {
  filename : option str;
  content : str
}.

(** A question record of the response:
    [{"question": [clean_q], "type": [answer_type], "answers": possible_answers}]. *)
Record Question := {
  question : list str;
  type : list str;
  answers : list str
}.

(** [{"question": ..., "user_answer": ..., "correct_answer": ..., "is_correct": ...}] *)
Record Validation := {
  v_question : str;
  v_user_answer : str;
  v_correct_answer : str;
  v_is_correct : str
}.

(** The status categories the spec speaks of. *)
Inductive Category := BadInput | InternalFailure | OtherStatus.

Definition status_category (e : Exn) : Category :=
  match e with
  | HTTPException code _ =>
      if (400 <=? code) && (code <? 500) then BadInput
      else if (500 <=? code) && (code <? 600) then InternalFailure
      else OtherStatus
  | PyError _ _ => InternalFailure
  end.

(** String constants of the source. *)
Definition i_acute : ascii := "237"%char.
Definition MCQ : str := s "MCQ".
Definition SiNo : str := [ "S"%char; i_acute ] ++ s "/No".
Definition RespuestaCorta : str := s "Respuesta corta".
Definition ANSWER_TYPES : list str := [MCQ; SiNo; RespuestaCorta].
Definition Si : str := [ "S"%char; i_acute ].
Definition No : str := s "No".
Definition placeholder : str := s "No se pudo generar respuesta".

(** The error kinds of the spec, as the source raises them. *)
Definition InvalidFormat : Exn :=
  HTTPException 400 (s "Uploaded file is not a valid PDF.").
Definition EmptyDocument : Exn :=
  HTTPException 400 (s "PDF has no pages.").
Definition NoExtractableText : Exn :=
  HTTPException 400 (s "No extractable text found in PDF.").
Definition NoTextExtracted : Exn :=
  HTTPException 400 (s "No text extracted from PDF.").
Definition NoQuestionsGenerated : Exn :=
  HTTPException 500 (s "Failed to generate valid questions.").
Definition InvalidInput : Exn :=
  HTTPException 400 (s "Invalid input: question, answer, and PDF file are required.").
Definition NoAnswerFound : Exn :=
  HTTPException 400 (s "No valid answer found in the context.").

(** *** Pure helpers of the source *)

(** [clean_generated_text] *)
Definition clean_generated_text (text : str) : str :=
  let text := strip text in
  if endswith text (s "?") then text else [].

(** The character class [a-zA-Z0-9 ] of [clean_text]. *)
Definition in_class (c : ascii) : bool :=
  let n := ord c in
  ((97 <=? n) && (n <=? 122)) || ((65 <=? n) && (n <=? 90))
  || ((48 <=? n) && (n <=? 57)) || (n =? 32).

(** [re.sub] of a pattern that matches one character, with the empty
    replacement: a scan that drops every match. *)
Fixpoint re_sub_empty (matches : ascii -> bool) (text : str) : str :=
  match text with
  | [] => []
  | c :: rest =>
      if matches c then re_sub_empty matches rest
      else c :: re_sub_empty matches rest
  end.

(** [clean_text]: [re.sub(r'[^a-zA-Z0-9 ]', '', text.lower()).strip()] *)
Definition clean_text (text : str) : str :=
  strip (re_sub_empty (fun c => negb (in_class c)) (lower text)).

Definition default_threshold : Q := 8 # 10.

(** [is_answer_correct]; [None] only if the matcher ran out of fuel. *)
Definition is_answer_correct (user_answer correct_answer : str) (threshold : Q)
    : option bool :=
  let user_answer_clean := clean_text user_answer in
  let correct_answer_clean := clean_text correct_answer in
  similarity ← Difflib.ratio
                 (Difflib.new_matcher user_answer_clean correct_answer_clean);
  Some (Qle_bool threshold similarity).

(** The chunks of [generate_questions]:
    [[text[i:i+500] for i in range(0, len(text), 500)][:5]] *)
Definition chunks_of (text : str) : list str :=
  take 5 (map (fun i => slice text i (i + 500)) (range 0 (len text) 500)).

(** Normalisation as the spec words it: lowercase, delete every character
    that is not an ASCII letter, a digit or a plain space, trim. *)
Definition is_ascii_letter (c : ascii) : bool :=
  let n := ord c in
  ((65 <=? n) && (n <=? 90)) || ((97 <=? n) && (n <=? 122)).
Definition is_digit (c : ascii) : bool :=
  let n := ord c in (48 <=? n) && (n <=? 57).
Definition is_plain_space (c : ascii) : bool := bool_decide (c = " "%char).
Definition spec_normalize (text : str) : str :=
  strip (List.filter (fun c => is_ascii_letter c || is_digit c || is_plain_space c)
                     (lower text)).

(** *** The handlers, over their external collaborators *)

(** What the program takes from outside: the two pipelines, the random
    source, the PDF parser, and [str] on exceptions. *)
Class Collaborators := {
  (** The state the collaborators carry from call to call (sampling,
      the random source). *)
  Oracle : Type;
  (** [generator(prompt, max_length=.., num_return_sequences=.., do_sample=True)]:
      the list of the [generated_text] entries, or an exception. *)
  generator : str -> Z -> Z -> Oracle -> (Exn + list str) * Oracle;
  (** [qa_pipeline(question=.., context=..)]: the [answer] entry of the
      response if it has one, or an exception. *)
  qa_pipeline : str -> str -> Oracle -> (Exn + option str) * Oracle;
  (** The number [random.choice] draws; it is reduced modulo the length
      of the sequence. *)
  random_draw : Oracle -> nat * Oracle;
  (** [fitz.open(stream=.., filetype="pdf")]: the pages, each with what
      [get_text("text")] gives on it, or an exception. *)
  fitz_open : str -> Exn + list (Exn + str);
  (** [str(e)] *)
  str_exc : Exn -> str
}.

Section Handlers.

Context `{Collaborators}.

Record World := {
  oracle : Oracle;
  trace : list Event
}.

Definition M (A : Type) : Type := World -> result A * World.

Definition ret {A} (a : A) : M A := fun w => (Ok a, w).

Definition raise {A} (e : Exn) : M A := fun w => (Raise e, w).

Definition bind {A B} (m : M A) (k : A -> M B) : M B :=
  fun w =>
    match m w with
    | (Ok a, w') => k a w'
    | (Raise e, w') => (Raise e, w')
    | (OutOfFuel, w') => (OutOfFuel, w')
    end.

(** [try: m except Exception as e: handler(e)] *)
Definition try_except {A} (m : M A) (handler : Exn -> M A) : M A :=
  fun w =>
    match m w with
    | (Raise e, w') => handler e w'
    | r => r
    end.

Definition emit (ev : Event) : M unit :=
  fun w => (Ok tt, {| oracle := oracle w; trace := trace w ++ [ev] |}).

Definition of_sum {A} (r : Exn + A) : M A :=
  match r with
  | inl e => raise e
  | inr a => ret a
  end.

Definition call_oracle {A} (ev : Event) (f : Oracle -> (Exn + A) * Oracle) : M A :=
  fun w =>
    let '(r, o) := f (oracle w) in
    of_sum r {| oracle := o; trace := trace w ++ [ev] |}.

Notation "x <- m ;; k" := (bind m (fun x => k))
  (at level 100, m at next level, right associativity).
Notation "m ;;; k" := (bind m (fun _ => k))
  (at level 100, right associativity).

(** [for x in l: acc = body(acc, x)] *)
Fixpoint for_each {A St} (body : St -> A -> M St) (l : list A) (acc : St) : M St :=
  match l with
  | [] => ret acc
  | x :: l' => acc' <- body acc x ;; for_each body l' acc'
  end.

Definition run_generator (prompt : str) (max_length num_return_sequences : Z)
    : M (list str) :=
  call_oracle (EvGenerator prompt max_length num_return_sequences)
              (generator prompt max_length num_return_sequences).

Definition index_error : Exn :=
  PyError (s "IndexError") (s "list index out of range").

(** [generator(prompt, max_length=50, num_return_sequences=1, do_sample=True)[0]["generated_text"]] *)
Definition first_generated (prompt : str) : M str :=
  out <- run_generator prompt 50 1 ;;
  match out with
  | t :: _ => ret t
  | [] => raise index_error
  end.

(** [page.get_text("text") for page in doc] *)
Fixpoint get_texts (page : nat) (doc : list (Exn + str)) : M (list str) :=
  match doc with
  | [] => ret []
  | p :: doc' =>
      emit (EvGetText page) ;;;
      t <- of_sum p ;;
      ts <- get_texts (S page) doc' ;;
      ret (t :: ts)
  end.

(** [extract_text_from_pdf] *)
Definition extract_text_from_pdf (pdf_file : UploadFile) : M str :=
  try_except
    (name <- match filename pdf_file with
             | Some name => ret name
             | None => raise (PyError (s "AttributeError")
                         (s "'NoneType' object has no attribute 'endswith'"))
             end ;;
     if negb (endswith name (s ".pdf")) then raise InvalidFormat
     else
       emit (EvRead (content pdf_file)) ;;;
       let pdf_bytes := content pdf_file in
       emit (EvFitzOpen pdf_bytes) ;;;
       doc <- of_sum (fitz_open pdf_bytes) ;;
       if len doc =? 0 then raise EmptyDocument
       else
         texts <- get_texts 0 doc ;;
         let text := join (s (String "010" EmptyString)) texts in
         if is_empty (strip text) then raise NoExtractableText
         else ret (strip (slice text 0 5000)))
    (fun e => raise (HTTPException 500 (s "Error processing PDF: " ++ str_exc e))).

(** [random.choice(seq)] *)
Definition random_choice (seq : list str) : M str :=
  fun w =>
    let '(r, o) := random_draw (oracle w) in
    let w' := {| oracle := o; trace := trace w ++ [EvRandomChoice] |} in
    match seq !! (r mod length seq)%nat with
    | Some x => (Ok x, w')
    | None => (Raise (PyError (s "IndexError")
                        (s "Cannot choose from an empty sequence")), w')
    end.

(** [generate_answer_type] *)
Definition generate_answer_type : M str := random_choice ANSWER_TYPES.

Definition str_eqb (x y : str) : bool := bool_decide (x = y).

(** [generate_possible_answers] *)
Definition generate_possible_answers (question answer_type : str) : M (list str) :=
  try_except
    (if str_eqb answer_type MCQ then
       a1 <- first_generated (s "Provide a correct answer to: " ++ question) ;;
       a2 <- first_generated (s "Provide a wrong answer to: " ++ question) ;;
       a3 <- first_generated (s "Provide another wrong answer to: " ++ question) ;;
       a4 <- first_generated (s "Provide one more wrong answer to: " ++ question) ;;
       ret [a1; a2; a3; a4]
     else if str_eqb answer_type SiNo then ret [Si; No]
     else if str_eqb answer_type RespuestaCorta then
       a <- first_generated (s "Provide a short answer to: " ++ question) ;;
       ret [a]
     else ret [])
    (fun _ => ret [placeholder]).

(** The body of [for q in generated]. *)
Definition question_step (questions : list Question) (generated_text : str)
    : M (list Question) :=
  let clean_q := clean_generated_text generated_text in
  if negb (is_empty clean_q) then
    answer_type <- generate_answer_type ;;
    possible_answers <- generate_possible_answers clean_q answer_type ;;
    ret (questions ++ [ {| question := [clean_q]; type := [answer_type];
                           answers := possible_answers |} ])
  else ret questions.

(** The body of [for chunk in chunks]. *)
Definition chunk_step (difficulty : str) (questions : list Question) (chunk : str)
    : M (list Question) :=
  let prompt :=
    s "Generate a clear and structured question based on the following text with "
      ++ difficulty ++ s " difficulty: " ++ chunk in
  try_except
    (generated <- run_generator prompt 128 2 ;;
     for_each question_step generated questions)
    (fun e => raise (HTTPException 500 (s "AI generation error: " ++ str_exc e))).

(** [generate_questions] after the extraction: chunking, the two loops,
    the final test. *)
Definition questions_from_text (text difficulty : str) : M (list Question) :=
  if is_empty text then raise NoTextExtracted
  else
    let chunks := chunks_of text in
    questions <- for_each (chunk_step difficulty) chunks [] ;;
    if match questions with [] => true | _ => false end
    then raise NoQuestionsGenerated
    else ret (take 10 questions).

(** [generate_questions]; the response is [{"questions": ...}]. *)
Definition generate_questions (file : UploadFile) (difficulty : str)
    : M (list Question) :=
  text <- extract_text_from_pdf file ;;
  questions_from_text text difficulty.

Definition of_option {A} (o : option A) : M A :=
  fun w => match o with Some a => (Ok a, w) | None => (OutOfFuel, w) end.

(** [validate_answers] after the extraction. *)
Definition validate_with_context (question user_answer context : str)
    : M Validation :=
  if is_empty question || is_empty user_answer || is_empty context
  then raise InvalidInput
  else
    r <- try_except
           (response <- call_oracle (EvQA question context)
                                    (qa_pipeline question context) ;;
            let correct_answer := default [] response in
            if is_empty correct_answer then raise NoAnswerFound
            else
              ok <- of_option (is_answer_correct user_answer correct_answer
                                                 default_threshold) ;;
              ret (correct_answer, if ok : bool then s "yes" else s "no"))
           (fun e => raise (HTTPException 500
                              (s "AI validation error: " ++ str_exc e))) ;;
    ret {| v_question := question; v_user_answer := user_answer;
           v_correct_answer := r.1; v_is_correct := r.2 |}.

(** [validate_answers] *)
Definition validate_answers (file : UploadFile) (question user_answer : str)
    : M Validation :=
  context <- extract_text_from_pdf file ;;
  validate_with_context question user_answer context.

End Handlers.

(** *** Scripted collaborators, for the examples *)

(** Starlette's [HTTPException.__str__]; the message of any other
    exception. *)
Definition starlette_str (e : Exn) : str :=
  match e with
  | HTTPException code detail => s (pretty code) ++ s ": " ++ detail
  | PyError _ message => message
  end.

(** A parser that finds the given pages, a generator that answers from a
    script indexed by the number of calls made so far, a random source
    that always draws [draw], a question answerer with a fixed reply. *)
Definition scripted (pages : list (Exn + str))
    (script : nat -> Exn + list str) (draw : nat)
    (reply : Exn + option str) : Collaborators :=
  {| Oracle := nat;
     generator := fun _ _ _ calls => (script calls, S calls);
     qa_pipeline := fun _ _ calls => (reply, calls);
     random_draw := fun calls => (draw, calls);
     fitz_open := fun _ => inr pages;
     str_exc := starlette_str |}.

Definition runtime_error : Exn :=
  PyError (s "RuntimeError") (s "model failure").

(** The generator gives one question and one statement on its first
    call and fails afterwards. *)
Definition script_once (calls : nat) : Exn + list str :=
  match calls with
  | O => inr [s " What is it? "; s "nothing"]
  | _ => inl runtime_error
  end.

(** The generator never gives a question. *)
Definition script_statements (calls : nat) : Exn + list str :=
  inr [s "It is."; s "So it is"].

(** The generator always gives the same question. *)
Definition script_why (calls : nat) : Exn + list str :=
  inr [s "Why?"].

Definition start {C : Collaborators} (o : Oracle) : World :=
  {| oracle := o; trace := [] |}.

Definition pdf (name : string) : UploadFile :=
  {| filename := Some (s name); content := s "%PDF-1.4" |}.

(** A page of 5000 spaces and one letter. *)
Definition blank_page : str := repeat " "%char 5000 ++ s "a".

(** The scripted runs the examples use. *)
Definition demo_once : Collaborators :=
  scripted [inr (s "Some text.")] script_once 0 (inr None).
Definition demo_statements : Collaborators :=
  scripted [inr (s "Some text.")] script_statements 0 (inr None).
Definition demo_why : Collaborators :=
  scripted [inr (s "Some text.")] script_why 1 (inr (Some (s "Paris"))).
Definition demo_blank : Collaborators :=
  scripted [inr blank_page] script_why 0 (inr None).

Definition what_is_it : Question :=
  {| question := [s "What is it?"]; type := [MCQ]; answers := [placeholder] |}.

Definition why_record : Question :=
  {| question := [s "Why?"]; type := [SiNo]; answers := [Si; No] |}.

Definition run_once : result (list Question) * World :=
  @generate_questions demo_once (pdf "doc.pdf") (s "medium") (@start demo_once 0%nat).

Definition run_why : result (list Question) * World :=
  @generate_questions demo_why (pdf "doc.pdf") (s "medium") (@start demo_why 0%nat).

Definition extract_statements : result str * World :=
  @extract_text_from_pdf demo_statements (pdf "doc.pdf") (@start demo_statements 0%nat).

Definition loop_statements : result (list Question) * World :=
  @for_each demo_statements _ _ (@chunk_step demo_statements (s "medium"))
    (chunks_of (s "Some text.")) [] extract_statements.2.

Definition extract_why : result str * World :=
  @extract_text_from_pdf demo_why (pdf "doc.pdf") (@start demo_why 0%nat).

End Home.

(** ** The vocabulary of the statements and of the loop invariants *)

Module Inv.

Import Difflib Home.

(** The least integer that is at least [n / d]. *)
Definition ceil_div (n d : Z) : Z := - ((- n) / d).

(** A block that lies in the window, with rows below [i]. *)
Definition block_below (alo blo bhi i : Z) (x : Match) : Prop :=
  alo <= x.1.1 /\ x.1.1 + x.2 <= i /\ blo <= x.1.2 /\ x.1.2 + x.2 <= bhi
  /\ 0 <= x.2.

(** The lengths in [j2len] after the rows below [i]. *)
Definition lens_below (alo blo i : Z) (j2len : gmap Z Z) : Prop :=
  forall j k, j2len !! j = Some k -> 1 <= k /\ k <= i - alo /\ k <= j - blo + 1.

(** The windows of the queue loop are well formed, and their total
    weight goes down with every turn. *)
Definition window_ok (win : Z * Z * Z * Z) : Prop :=
  let '(alo, ahi, blo, bhi) := win in alo <= ahi /\ blo <= bhi.

Definition weight (queue : list (Z * Z * Z * Z)) : Z :=
  foldr (fun (win : Z * Z * Z * Z) acc =>
           let '(alo, ahi, blo, bhi) := win in 2 * (ahi - alo) + 1 + acc)
        0 queue.

(** The indices at which [x] occurs in [l], counted from [i0]. *)
Fixpoint positions (x : ascii) (i0 : Z) (l : str) : list Z :=
  match l with
  | [] => []
  | c :: l' => (if decide (c = x) then [i0] else []) ++ positions x (i0 + 1) l'
  end.

(** The elements of [a] that are still keys of [b2j] when [a] is
    matched against itself. *)
Definition kept (a : str) (x : ascii) : bool :=
  bool_decide (is_Some (b2j (chain_b a a) !! x)).

(** The length of the run of kept elements that ends at index [i]. *)
Fixpoint run (a : str) (i : nat) : Z :=
  match a !! i with
  | Some x =>
      if kept a x then (match i with O => 0 | S i' => run a i' end) + 1 else 0
  | None => 0
  end.

Definition run_at (a : str) (z : Z) : Z :=
  if z <? 0 then 0 else run a (Z.to_nat z).

(** After the rows below [i] of a sequence against itself: the lengths
    in [j2len] are bounded by the runs, the diagonal entry is exact, and
    the best block lies on the diagonal and is at least as long as every
    run so far. *)
Definition rows_done (a : str) (i : Z) (st : gmap Z Z * Match) : Prop :=
  (forall j k, st.1 !! j = Some k ->
     0 <= j /\ 1 <= k /\ k <= run_at a j /\ k <= run_at a (i - 1))
  /\ (1 <= run_at a (i - 1) -> st.1 !! (i - 1) = Some (run_at a (i - 1)))
  /\ (forall j, j < i -> run_at a j <= st.2.2)
  /\ st.2.1.1 = st.2.1.2 /\ 0 <= st.2.2.

(** Within row [i], with the columns [js] still to come. *)
Definition row_part (a : str) (i : Z) (js : list Z) (newj2len : gmap Z Z)
    (best : Match) : Prop :=
  (forall j k, newj2len !! j = Some k ->
     0 <= j /\ 1 <= k /\ k <= run_at a j /\ k <= run_at a i)
  /\ (i ∈ js \/ (newj2len !! i = Some (run_at a i) /\ run_at a i <= best.2))
  /\ (forall j, j < i -> run_at a j <= best.2)
  /\ best.1.1 = best.1.2 /\ 0 <= best.2.

(** Two strings have the same ratio in both orders. *)
Definition same_ratio (a b : str) : Prop :=
  match ratio (new_matcher a b), ratio (new_matcher b a) with
  | Some r1, Some r2 => (r1 == r2)%Q
  | _, _ => False
  end.

Definition is_qa_call (ev : Event) : bool :=
  match ev with EvQA _ _ => true | _ => false end.

(** The shape of the candidate answers, by answer type, as the source
    builds them. *)
Definition answers_shape (answer_type : str) (ans : list str) : Prop :=
  (answer_type = MCQ -> length ans = 4%nat \/ ans = [placeholder])
  /\ (answer_type = SiNo -> ans = [Si; No])
  /\ (answer_type = RespuestaCorta -> length ans = 1%nat).

(** What the question loop puts into a record. *)
Definition well_formed (q : Question) : Prop :=
  exists clean_q answer_type,
    question q = [clean_q] /\ endswith clean_q (s "?") = true
    /\ type q = [answer_type] /\ answer_type ∈ ANSWER_TYPES
    /\ answers_shape answer_type (answers q).

(** The shape of the candidate answers as the spec states it, without
    the placeholder. *)
Definition claimed_shape (q : Question) : Prop :=
  (type q = [MCQ] -> length (answers q) = 4%nat)
  /\ (type q = [SiNo] -> answers q = [Si; No])
  /\ (type q = [RespuestaCorta] -> length (answers q) = 1%nat).

End Inv.

(** ** The vocabulary of the further properties *)

Module Cover.
Import Difflib Home.

(** A character [clean_text] can leave in place: a lowercase ASCII
    letter, a digit or a plain space. *)
Definition is_clean_char (c : ascii) : bool :=
  let n := ord c in
  ((97 <=? n) && (n <=? 122)) || ((48 <=? n) && (n <=? 57)) || (n =? 32).

(** The room the windows of the queue leave in [a] and in [b]. *)
Definition a_width (queue : list (Z * Z * Z * Z)) : Z :=
  foldr (fun (win : Z * Z * Z * Z) acc =>
           let '(alo, ahi, blo, bhi) := win in (ahi - alo) + acc) 0 queue.

Definition b_width (queue : list (Z * Z * Z * Z)) : Z :=
  foldr (fun (win : Z * Z * Z * Z) acc =>
           let '(alo, ahi, blo, bhi) := win in (bhi - blo) + acc) 0 queue.

(** The kinds of external call in the trace. *)
Definition is_file_event (ev : Event) : bool :=
  match ev with
  | EvRead _ | EvFitzOpen _ | EvGetText _ => true
  | _ => false
  end.

Definition is_question_prompt (ev : Event) : bool :=
  match ev with
  | EvGenerator _ max_length n => (max_length =? 128) && (n =? 2)
  | _ => false
  end.

Definition is_answer_prompt (ev : Event) : bool :=
  match ev with
  | EvGenerator _ max_length n => (max_length =? 50) && (n =? 1)
  | _ => false
  end.

Definition is_generation_event (ev : Event) : bool :=
  match ev with
  | EvGenerator _ _ _ | EvRandomChoice => true
  | _ => false
  end.

(** How often a kind of call occurs. *)
Definition count_events (kind : Event -> bool) (evs : list Event) : nat :=
  length (List.filter kind evs).

(** [a[i] == b[j]], both in range. *)
Definition matches_at (a b : str) (i j : Z) : Prop :=
  0 <= i /\ 0 <= j
  /\ exists x, a !! Z.to_nat i = Some x /\ b !! Z.to_nat j = Some x.

(** A block [(i, j, k)] with [a[i:i+k] == b[j:j+k]]. *)
Definition valid_block (a b : str) (x : Match) : Prop :=
  0 <= x.1.1 /\ 0 <= x.1.2 /\ 0 <= x.2
  /\ forall t, 0 <= t < x.2 -> matches_at a b (x.1.1 + t) (x.1.2 + t).

(** The lengths in [j2len] after the rows below [i] are lengths of
    real matches that end in row [i - 1]. *)
Definition lens_match (a b : str) (i : Z) (j2len : gmap Z Z) : Prop :=
  forall j k, j2len !! j = Some k ->
    1 <= k /\ forall t, 0 <= t < k -> matches_at a b (i - 1 - t) (j - t).

Definition window_nonneg (win : Z * Z * Z * Z) : Prop :=
  let '(alo, ahi, blo, bhi) := win in 0 <= alo /\ 0 <= blo.

End Cover.

(** * Facts about the string helpers *)

Module PyStrFacts.

Lemma lstrip_head (t : str) c : head (lstrip t) = Some c -> isspace c = false.
Proof.
  induction t as [|x t IH]; simpl; [done|].
  destruct (isspace x) eqn:Hx; [done|]. simpl. by intros [= <-].
Qed.

Lemma lstrip_length (t : str) : (length (lstrip t) <= length t)%nat.
Proof.
  induction t as [|x t IH]; simpl; [lia|].
  destruct (isspace x); simpl; lia.
Qed.

Lemma lstrip_app_keep (l m : str) c :
  isspace c = false -> lstrip (l ++ c :: m) = lstrip l ++ c :: m.
Proof.
  intros Hc. induction l as [|x l IH]; simpl.
  - by rewrite Hc.
  - by destruct (isspace x).
Qed.

Lemma rstrip_length (t : str) : (length (rstrip t) <= length t)%nat.
Proof.
  unfold rstrip. rewrite length_rev.
  etrans; [apply lstrip_length|]. by rewrite length_rev.
Qed.

Lemma last_rev_head {A} (l : list A) : last (rev l) = head l.
Proof. destruct l as [|x l]; [done|]. simpl. apply last_snoc. Qed.

Lemma rstrip_last (t : str) c : last (rstrip t) = Some c -> isspace c = false.
Proof. unfold rstrip. rewrite last_rev_head. apply lstrip_head. Qed.

Lemma rstrip_cons_keep (t : str) c :
  isspace c = false -> rstrip (c :: t) = c :: rstrip t.
Proof.
  intros Hc. unfold rstrip. simpl.
  rewrite <- (app_nil_r (rev t ++ [c])), <- app_assoc. simpl.
  rewrite lstrip_app_keep by done. by rewrite rev_app_distr.
Qed.

Lemma strip_length (t : str) : (length (strip t) <= length t)%nat.
Proof.
  unfold strip. etrans; [apply rstrip_length | apply lstrip_length].
Qed.

Lemma strip_head (t : str) c : head (strip t) = Some c -> isspace c = false.
Proof.
  unfold strip. destruct (lstrip t) as [|x u] eqn:Hl; [done|].
  assert (Hx : isspace x = false) by (apply (lstrip_head t); by rewrite Hl).
  rewrite rstrip_cons_keep by done. simpl. by intros [= <-].
Qed.

Lemma strip_last (t : str) c : last (strip t) = Some c -> isspace c = false.
Proof. apply rstrip_last. Qed.

Lemma getitem_nonneg {A} (l : list A) z : 0 <= z -> getitem l z = l !! Z.to_nat z.
Proof. intros Hz. unfold getitem. by rewrite (proj2 (Z.ltb_ge _ _) Hz). Qed.

(** An invariant of [for i in range(m, m + n)]. *)
Lemma foldl_seqZ_inv {St} (P : Z -> St -> Prop) (f : St -> Z -> St) (m : Z)
    (s0 : St) (n : nat) :
  P m s0 ->
  (forall i st, m <= i < m + Z.of_nat n -> P i st -> P (i + 1) (f st i)) ->
  P (m + Z.of_nat n) (foldl f s0 (seqZ m (Z.of_nat n))).
Proof.
  intros H0. induction n as [|n IH]; intros Hstep.
  - by rewrite Z.add_0_r.
  - rewrite seqZ_S, foldl_app. simpl.
    replace (m + Z.of_nat (S n)) with (m + Z.of_nat n + 1) by lia.
    apply Hstep; [lia|]. apply IH. intros i st Hi. apply Hstep. lia.
Qed.

End PyStrFacts.

(** * Facts about the matcher *)

Module DifflibFacts.

Import Difflib Inv PyStrFacts.

(** ** The block [find_longest_match] returns lies in its window *)

Section Bounds.

Variable sm : SequenceMatcher.
Variables alo ahi blo bhi : Z.
Hypothesis Ha : alo <= ahi.
Hypothesis Hb : blo <= bhi.

Lemma scan_row_bounds (i : Z) (j2len : gmap Z Z) (js : list Z) :
  alo <= i -> lens_below alo blo i j2len ->
  forall newj2len best,
    lens_below alo blo (i + 1) newj2len ->
    block_below alo blo bhi (i + 1) best ->
    lens_below alo blo (i + 1) (scan_row blo bhi i j2len js newj2len best).1
    /\ block_below alo blo bhi (i + 1)
         (scan_row blo bhi i j2len js newj2len best).2.
Proof.
  intros Hi Hold. induction js as [|j js IH]; intros newj2len best Hnew Hbest.
  - done.
  - cbn [scan_row]. destruct (j <? blo) eqn:Hjlo; [by apply IH|].
    destruct (bhi <=? j) eqn:Hjhi; [done|].
    apply Z.ltb_ge in Hjlo. apply Z.leb_gt in Hjhi.
    destruct best as [[besti bestj] bestsize].
    assert (Hk : 1 <= default 0 (j2len !! (j - 1)) + 1
                 /\ default 0 (j2len !! (j - 1)) + 1 <= i + 1 - alo
                 /\ default 0 (j2len !! (j - 1)) + 1 <= j - blo + 1).
    { destruct (j2len !! (j - 1)) as [k'|] eqn:Hget; cbn.
      - apply Hold in Hget. lia.
      - lia. }
    set (k := default 0 (j2len !! (j - 1)) + 1) in *.
    apply IH.
    + intros j' k' Hget. destruct (decide (j = j')) as [<-|Hne].
      * rewrite lookup_insert_eq in Hget. injection Hget as <-. lia.
      * rewrite lookup_insert_ne in Hget by done. by apply Hnew.
    + destruct (bestsize <? k); [|done].
      unfold block_below. cbn. lia.
Qed.

Lemma scan_bounds : block_below alo blo bhi ahi (scan sm alo ahi blo bhi).2.
Proof.
  unfold scan.
  pose proof (foldl_seqZ_inv
    (fun i st => lens_below alo blo i st.1 /\ block_below alo blo bhi i st.2)
    (scan_step sm blo bhi) alo (∅, (alo, blo, 0))
    (Z.to_nat (ahi - alo))) as Hinv.
  rewrite Z2Nat.id in Hinv by lia.
  replace (alo + (ahi - alo)) with ahi in Hinv by lia.
  apply Hinv.
  - split; [intros j k Hget; cbn in Hget; by rewrite lookup_empty in Hget|].
    unfold block_below. cbn. lia.
  - intros i [j2len best] Hi [Hlens Hbest]. unfold scan_step. cbn [fst snd].
    apply scan_row_bounds; [lia|done| |].
    + intros j k Hget. by rewrite lookup_empty in Hget.
    + unfold block_below in *. cbn in *. lia.
Qed.

Lemma grow_front_bounds fuel junk best :
  block_below alo blo bhi ahi best ->
  block_below alo blo bhi ahi (grow_front sm alo blo fuel junk best).
Proof.
  revert best.
  induction fuel as [|fuel IH]; intros [[besti bestj] bestsize] Hbest; [done|].
  cbn [grow_front].
  destruct (alo <? besti) eqn:H1; [|done].
  destruct (blo <? bestj) eqn:H2; [|done]. cbn [andb].
  match goal with |- context [if ?c then _ else _] => destruct c end; [|done].
  apply IH. apply Z.ltb_lt in H1, H2. unfold block_below in *. cbn in *. lia.
Qed.

Lemma grow_back_bounds fuel junk best :
  block_below alo blo bhi ahi best ->
  block_below alo blo bhi ahi (grow_back sm ahi bhi fuel junk best).
Proof.
  revert best.
  induction fuel as [|fuel IH]; intros [[besti bestj] bestsize] Hbest; [done|].
  cbn [grow_back].
  destruct (besti + bestsize <? ahi) eqn:H1; [|done].
  destruct (bestj + bestsize <? bhi) eqn:H2; [|done]. cbn [andb].
  match goal with |- context [if ?c then _ else _] => destruct c end; [|done].
  apply IH. apply Z.ltb_lt in H1, H2. unfold block_below in *. cbn in *. lia.
Qed.

Lemma find_longest_match_bounds :
  block_below alo blo bhi ahi (find_longest_match sm alo ahi blo bhi).
Proof.
  unfold find_longest_match, while_front, while_back.
  apply grow_back_bounds, grow_front_bounds, grow_back_bounds, grow_front_bounds.
  apply scan_bounds.
Qed.

End Bounds.

(** ** The queue loop comes to an end *)

Lemma weight_cons alo ahi blo bhi queue :
  weight ((alo, ahi, blo, bhi) :: queue) = 2 * (ahi - alo) + 1 + weight queue.
Proof. reflexivity. Qed.

Lemma weight_nonneg queue : Forall window_ok queue -> 0 <= weight queue.
Proof.
  induction queue as [|[[[alo ahi] blo] bhi] queue IH]; intros Hok; [done|].
  rewrite weight_cons.
  apply Forall_cons in Hok as [[Ha Hb] Hok]. apply IH in Hok. lia.
Qed.

Lemma blocks_loop_nil (sm : SequenceMatcher) fuel blocks :
  blocks_loop sm fuel [] blocks = Some blocks.
Proof. by destruct fuel. Qed.

Lemma blocks_loop_enough_fuel (sm : SequenceMatcher) (fuel : nat) :
  forall queue matching_blocks,
    Forall window_ok queue -> weight queue <= Z.of_nat fuel ->
    is_Some (blocks_loop sm fuel queue matching_blocks).
Proof.
  induction fuel as [|fuel IH]; intros queue mb Hok Hw.
  - destruct queue as [|[[[alo ahi] blo] bhi] queue]; [done|].
    apply Forall_cons in Hok as [[Ha Hb] Hok]. rewrite weight_cons in Hw.
    apply weight_nonneg in Hok. lia.
  - destruct queue as [|[[[alo ahi] blo] bhi] queue]; [done|].
    apply Forall_cons in Hok as [[Ha Hb] Hok]. rewrite weight_cons in Hw.
    cbn [blocks_loop].
    pose proof (find_longest_match_bounds sm alo ahi blo bhi Ha Hb) as Hblock.
    destruct (find_longest_match sm alo ahi blo bhi) as [[i j] k].
    unfold block_below in Hblock. cbn in Hblock.
    destruct (k =? 0) eqn:Hk.
    { apply IH; [done|lia]. }
    apply Z.eqb_neq in Hk.
    destruct (alo <? i) eqn:H1, (blo <? j) eqn:H2,
             (i + k <? ahi) eqn:H3, (j + k <? bhi) eqn:H4; cbn [andb];
      try apply Z.ltb_lt in H1; try apply Z.ltb_lt in H2;
      try apply Z.ltb_lt in H3; try apply Z.ltb_lt in H4;
      apply IH; rewrite ?weight_cons; repeat (apply Forall_cons; split);
      cbn; try done; try lia.
Qed.

(** The matcher always comes back with its blocks: the fuel of
    [get_matching_blocks] is never used up. *)
Lemma blocks_loop_terminates (sm : SequenceMatcher) :
  is_Some (get_matching_blocks sm).
Proof.
  unfold get_matching_blocks.
  destruct (blocks_loop_enough_fuel sm (blocks_fuel sm)
              [(0, len (seq_a sm), 0, len (seq_b sm))] []) as [blocks ->].
  - apply Forall_cons. split; [|done]. unfold window_ok, len. lia.
  - rewrite weight_cons. unfold blocks_fuel, len. cbn [weight foldr]. lia.
  - by eexists.
Qed.

Lemma ratio_total (sm : SequenceMatcher) : is_Some (ratio sm).
Proof.
  unfold ratio. destruct (blocks_loop_terminates sm) as [blocks ->].
  by eexists.
Qed.

(** ** What [__chain_b] puts into [b2j] *)

Lemma positions_elem (x : ascii) (l : str) : forall i0 j,
  j ∈ positions x i0 l <-> i0 <= j /\ l !! Z.to_nat (j - i0) = Some x.
Proof.
  induction l as [|c l IH]; intros i0 j; cbn [positions].
  - split; [by intros ?%elem_of_nil | by intros [_ ?]].
  - rewrite elem_of_app, IH. split.
    + intros [Hhd | [Hle Hl]].
      * destruct (decide (c = x)) as [->|]; [|by apply elem_of_nil in Hhd].
        apply list_elem_of_singleton in Hhd as ->.
        split; [lia|]. by rewrite Z.sub_diag.
      * split; [lia|].
        replace (Z.to_nat (j - i0)) with (S (Z.to_nat (j - (i0 + 1)))) by lia.
        done.
    + intros [Hle Hl]. destruct (decide (j = i0)) as [->|Hne].
      * left. rewrite Z.sub_diag in Hl. cbn in Hl. injection Hl as ->.
        rewrite decide_True by done. by apply list_elem_of_singleton.
      * right. split; [lia|].
        replace (Z.to_nat (j - i0)) with (S (Z.to_nat (j - (i0 + 1)))) in Hl
          by lia.
        done.
Qed.

Lemma positions_sorted (x : ascii) (l : str) : forall i0,
  StronglySorted Z.lt (positions x i0 l).
Proof.
  induction l as [|c l IH]; intros i0; cbn [positions]; [constructor|].
  destruct (decide (c = x)); cbn; [|done].
  constructor; [done|]. apply Forall_forall. intros j Hj.
  apply positions_elem in Hj. lia.
Qed.

Lemma b2j_add_indices (l : str) : forall i0 m x,
  default [] (foldl b2j_add m (enumerate_from i0 l) !! x)
  = default [] (m !! x) ++ positions x i0 l.
Proof.
  induction l as [|c l IH]; intros i0 m x; cbn [enumerate_from foldl positions].
  - by rewrite app_nil_r.
  - rewrite IH. unfold b2j_add. cbn [fst snd].
    destruct (decide (c = x)) as [->|Hne].
    + rewrite lookup_insert_eq. cbn. by rewrite <- app_assoc.
    + by rewrite lookup_insert_ne.
Qed.

Lemma purge_lookup (popular : gset ascii) (m : gmap ascii (list Z)) x js :
  purge popular m !! x = Some js -> m !! x = Some js.
Proof.
  unfold purge. revert x js.
  apply (set_fold_ind_L
           (fun r _ => forall x js, r !! x = Some js -> m !! x = Some js)).
  - done.
  - intros elt X r _ IH x js Hget.
    apply lookup_delete_Some in Hget as [_ Hget]. by apply IH.
Qed.

Lemma chain_b_fields (a b : str) :
  seq_a (chain_b a b) = a /\ seq_b (chain_b a b) = b /\ bjunk (chain_b a b) = ∅.
Proof. unfold chain_b. by destruct (200 <=? len b). Qed.

Lemma chain_b_indices (a b : str) x js :
  b2j (chain_b a b) !! x = Some js -> js = positions x 0 b.
Proof.
  intros Hget.
  assert (Hm : foldl b2j_add ∅ (enumerate b) !! x = Some js).
  { unfold chain_b in Hget. destruct (200 <=? len b); cbn in Hget; [|done].
    by apply purge_lookup in Hget. }
  pose proof (b2j_add_indices b 0 ∅ x) as Hidx.
  unfold enumerate in Hm. rewrite Hm, lookup_empty in Hidx. done.
Qed.

(** ** A sequence against itself *)

Section Reflexive.

Variable a : str.

Lemma run_nonneg (i : nat) : 0 <= run a i.
Proof.
  induction i as [|i IH]; cbn [run]; destruct (a !! _) as [x|]; try lia;
    destruct (kept a x); lia.
Qed.

Lemma run_at_nonneg z : 0 <= run_at a z.
Proof. unfold run_at. destruct (z <? 0); [lia|apply run_nonneg]. Qed.

Lemma run_at_neg z : z < 0 -> run_at a z = 0.
Proof. intros Hz. unfold run_at. by rewrite (proj2 (Z.ltb_lt _ _) Hz). Qed.

Lemma run_at_step z x :
  0 <= z -> a !! Z.to_nat z = Some x ->
  run_at a z = if kept a x then run_at a (z - 1) + 1 else 0.
Proof.
  intros Hz Hx. unfold run_at at 1. rewrite (proj2 (Z.ltb_ge _ _) Hz).
  destruct (Z.to_nat z) as [|m] eqn:Hm; cbn [run]; rewrite Hx.
  - rewrite run_at_neg by lia. done.
  - unfold run_at. rewrite (proj2 (Z.ltb_ge (z - 1) 0)) by lia.
    replace (Z.to_nat (z - 1)) with m by lia. done.
Qed.

Lemma row_indices_kept i x :
  0 <= i -> a !! Z.to_nat i = Some x ->
  row_indices (chain_b a a) i = if kept a x then positions x 0 a else [].
Proof.
  intros Hi Hx. unfold row_indices.
  destruct (chain_b_fields a a) as (-> & _ & _).
  rewrite getitem_nonneg, Hx by done. unfold kept.
  destruct (b2j (chain_b a a) !! x) as [js|] eqn:Hget.
  - rewrite bool_decide_eq_true_2 by eauto. cbn.
    by apply chain_b_indices in Hget.
  - rewrite bool_decide_eq_false_2; [done|]. by intros [? ?].
Qed.

Section Row.

Variable i : Z.
Variable x : ascii.
Variable j2len : gmap Z Z.
Hypothesis Hi : 0 <= i < len a.
Hypothesis Hx : a !! Z.to_nat i = Some x.
Hypothesis Hkept : kept a x = true.
Hypothesis Hlens : forall j k, j2len !! j = Some k ->
  0 <= j /\ 1 <= k /\ k <= run_at a j /\ k <= run_at a (i - 1).
Hypothesis Hdiag :
  1 <= run_at a (i - 1) -> j2len !! (i - 1) = Some (run_at a (i - 1)).

(** One row keeps the best block on the diagonal: a column before the
    diagonal cannot beat the run that ended there, the diagonal column
    records the run exactly, a column after it cannot beat the diagonal. *)
Lemma scan_row_diagonal (js : list Z) :
  StronglySorted Z.lt js ->
  (forall j, j ∈ js -> 0 <= j < len a /\ a !! Z.to_nat j = Some x) ->
  forall newj2len best,
    row_part a i js newj2len best ->
    rows_done a (i + 1) (scan_row 0 (len a) i j2len js newj2len best).
Proof.
  induction js as [|j js IH]; intros Hsorted Hjs newj2len best
    (Hnew & Hi_seen & Hruns & Hd & Hsize).
  - cbn [scan_row]. unfold rows_done. cbn [fst snd].
    replace (i + 1 - 1) with i by lia.
    destruct Hi_seen as [Hin | [Hget Hle]]; [by apply elem_of_nil in Hin|].
    split; [|split; [|split]]; [done|done| |done].
    intros j' Hj'. destruct (decide (j' = i)) as [->|]; [done|].
    apply Hruns. lia.
  - apply StronglySorted_inv in Hsorted as [Hsorted Hlt].
    destruct (Hjs j ltac:(left)) as [Hj Hjx].
    cbn [scan_row].
    rewrite (proj2 (Z.ltb_ge j 0)), (proj2 (Z.leb_gt (len a) j)) by lia.
    destruct best as [[besti bestj] bestsize]. cbn in Hd, Hsize, Hruns, Hi_seen.
    pose proof (run_at_step j x ltac:(lia) Hjx) as Hrj. rewrite Hkept in Hrj.
    pose proof (run_at_step i x ltac:(lia) Hx) as Hri. rewrite Hkept in Hri.
    pose proof (run_at_nonneg (j - 1)) as Hnj.
    pose proof (run_at_nonneg (i - 1)) as Hni.
    set (k := default 0 (j2len !! (j - 1)) + 1).
    assert (Hk : 1 <= k /\ k <= run_at a j /\ k <= run_at a i).
    { unfold k. destruct (j2len !! (j - 1)) as [k'|] eqn:Hget; cbn.
      - apply Hlens in Hget. lia.
      - lia. }
    assert (Hnew' : forall j' k', <[j:=k]> newj2len !! j' = Some k' ->
              0 <= j' /\ 1 <= k' /\ k' <= run_at a j' /\ k' <= run_at a i).
    { intros j' k' Hget. destruct (decide (j = j')) as [<-|Hne].
      - rewrite lookup_insert_eq in Hget. injection Hget as <-. lia.
      - rewrite lookup_insert_ne in Hget by done. by apply Hnew. }
    assert (Hrest : forall j', j' ∈ js ->
              0 <= j' < len a /\ a !! Z.to_nat j' = Some x).
    { intros j' Hin. apply Hjs. by right. }
    destruct (Z.lt_trichotomy j i) as [Hji | [-> | Hji]].
    + assert (Hno : (bestsize <? k) = false).
      { apply Z.ltb_ge. specialize (Hruns j Hji). lia. }
      rewrite Hno. apply IH; [done|done|].
      split; [exact Hnew'|]. split; [|done].
      destruct Hi_seen as [Hin | [Hget Hle]].
      * left. apply elem_of_cons in Hin as [->|Hin]; [lia|done].
      * right. split; [|done]. rewrite lookup_insert_ne by lia. done.
    + assert (Hki : k = run_at a i).
      { unfold k. destruct (decide (1 <= run_at a (i - 1))) as [Hr|Hr].
        - rewrite (Hdiag Hr). cbn. lia.
        - destruct (j2len !! (i - 1)) as [k'|] eqn:Hget; cbn.
          + apply Hlens in Hget. lia.
          + lia. }
      destruct (bestsize <? k) eqn:Hupd.
      * apply Z.ltb_lt in Hupd. apply IH; [done|done|].
        split; [exact Hnew'|]. cbn. split; [|split; [|split]]; [| |done|lia].
        -- right. rewrite lookup_insert_eq. split; [by rewrite Hki|lia].
        -- intros j' Hj'. specialize (Hruns j' Hj'). lia.
      * apply Z.ltb_ge in Hupd. apply IH; [done|done|].
        split; [exact Hnew'|]. split; [|done].
        right. rewrite lookup_insert_eq. cbn. split; [by rewrite Hki|lia].
    + destruct Hi_seen as [Hin | [Hget Hle]].
      { apply elem_of_cons in Hin as [->|Hin]; [lia|].
        rewrite Forall_forall in Hlt. specialize (Hlt i Hin). lia. }
      assert (Hno : (bestsize <? k) = false).
      { apply Z.ltb_ge. cbn in Hle. lia. }
      rewrite Hno. apply IH; [done|done|].
      split; [exact Hnew'|]. split; [|done].
      right. split; [|done]. rewrite lookup_insert_ne by lia. done.
Qed.

End Row.

Lemma scan_rows_done :
  rows_done a (len a) (scan (chain_b a a) 0 (len a) 0 (len a)).
Proof.
  unfold scan.
  pose proof (foldl_seqZ_inv (rows_done a) (scan_step (chain_b a a) 0 (len a))
                0 (∅, (0, 0, 0)) (length a)) as Hinv.
  rewrite Z.sub_0_r. cbn [Z.add] in Hinv. apply Hinv.
  - unfold rows_done. cbn [fst snd].
    split; [|split; [|split]]; [| | |done].
    + intros j k Hget. by rewrite lookup_empty in Hget.
    + rewrite run_at_neg; lia.
    + intros j Hj. rewrite run_at_neg; lia.
  - intros i [j2len best] Hi (Hlens & Hdiag & Hruns & Hd & Hsize).
    cbn [fst snd] in *. unfold scan_step. cbn [fst snd].
    destruct (lookup_lt_is_Some_2 a (Z.to_nat i)) as [x Hx]; [lia|].
    rewrite (row_indices_kept i x) by (done || lia).
    destruct (kept a x) eqn:Hkept.
    + apply (scan_row_diagonal i x j2len); try done.
      * apply positions_sorted.
      * intros j Hj. apply positions_elem in Hj as [Hj0 Hjx].
        rewrite Z.sub_0_r in Hjx. split; [|done].
        apply lookup_lt_Some in Hjx. unfold len. lia.
      * split; [|split; [|done]].
        -- intros j k Hget. by rewrite lookup_empty in Hget.
        -- left. apply positions_elem. rewrite Z.sub_0_r. split; [lia|done].
    + cbn [scan_row]. unfold rows_done. cbn [fst snd].
      replace (i + 1 - 1) with i by lia.
      pose proof (run_at_step i x ltac:(lia) Hx) as Hri. rewrite Hkept in Hri.
      split; [|split; [|split]]; [| | |done].
      * intros j k Hget. by rewrite lookup_empty in Hget.
      * lia.
      * intros j Hj. destruct (decide (j = i)) as [->|]; [lia|].
        apply Hruns. lia.
Qed.

Lemma same_elt_diagonal z : 0 <= z < len a -> same_elt (chain_b a a) z z = true.
Proof.
  intros Hz. unfold same_elt.
  destruct (chain_b_fields a a) as (-> & -> & _).
  rewrite getitem_nonneg by lia.
  destruct (lookup_lt_is_Some_2 a (Z.to_nat z)) as [x ->];
    [unfold len in Hz; lia|].
  by apply bool_decide_eq_true_2.
Qed.

Lemma isbjunk_never c : isbjunk (chain_b a a) c = false.
Proof.
  unfold isbjunk. destruct c as [x|]; [|done].
  destruct (chain_b_fields a a) as (_ & _ & ->).
  by apply bool_decide_eq_false_2, not_elem_of_empty.
Qed.

Lemma grow_front_diagonal (fuel : nat) : forall d size,
  Z.of_nat fuel = d -> d <= len a ->
  grow_front (chain_b a a) 0 0 fuel false (d, d, size) = (0, 0, size + d).
Proof.
  induction fuel as [|fuel IH]; intros d size Hd Hn.
  - cbn [grow_front]. repeat f_equal; lia.
  - cbn [grow_front].
    rewrite (proj2 (Z.ltb_lt 0 d)), isbjunk_never, same_elt_diagonal by lia.
    cbn [andb eqb]. rewrite IH by lia. f_equal. lia.
Qed.

Lemma grow_back_diagonal (fuel : nat) : forall size,
  0 <= size -> size + Z.of_nat fuel = len a ->
  grow_back (chain_b a a) (len a) (len a) fuel false (0, 0, size)
  = (0, 0, len a).
Proof.
  induction fuel as [|fuel IH]; intros size H0 Hn.
  - cbn [grow_back]. repeat f_equal; lia.
  - cbn [grow_back]. rewrite !Z.add_0_l.
    rewrite (proj2 (Z.ltb_lt size (len a))), isbjunk_never, same_elt_diagonal
      by lia.
    cbn [andb eqb]. apply IH; lia.
Qed.

(** On the whole of a sequence and itself the longest match is the
    whole sequence, popular elements or not. *)
Lemma find_longest_match_self :
  find_longest_match (chain_b a a) 0 (len a) 0 (len a) = (0, 0, len a).
Proof.
  assert (Hn : 0 <= len a) by (unfold len; lia).
  pose proof (scan_bounds (chain_b a a) 0 (len a) 0 (len a) Hn Hn) as Hb.
  pose proof scan_rows_done as (_ & _ & _ & Hd & _).
  unfold find_longest_match.
  destruct (scan (chain_b a a) 0 (len a) 0 (len a)).2
    as [[besti bestj] bestsize].
  unfold block_below in Hb. cbn in Hb, Hd. subst bestj.
  unfold while_front at 2. cbn [fst snd].
  rewrite (grow_front_diagonal _ besti) by lia.
  unfold while_back at 2. cbn [fst snd].
  rewrite grow_back_diagonal by lia.
  unfold while_front, while_back. cbn [fst snd].
  replace (Z.to_nat (0 - 0)) with 0%nat by lia.
  cbn [grow_front fst snd].
  replace (Z.to_nat (len a - (0 + len a))) with 0%nat by lia.
  done.
Qed.

Lemma blocks_self :
  get_matching_blocks (chain_b a a)
  = Some (if len a =? 0 then [(len a, len a, 0)]
          else [(0, 0, len a); (len a, len a, 0)]).
Proof.
  unfold get_matching_blocks, blocks_fuel.
  destruct (chain_b_fields a a) as (-> & -> & _).
  cbn [blocks_loop]. rewrite find_longest_match_self.
  destruct (len a =? 0) eqn:Hn; [by rewrite blocks_loop_nil|].
  rewrite Z.ltb_irrefl. cbn [andb].
  replace (0 + len a <? len a) with false by (symmetry; apply Z.ltb_ge; lia).
  rewrite blocks_loop_nil. cbn. unfold collapse, collapse_step. cbn.
  rewrite !Z.add_0_l, Z.eqb_refl. cbn. rewrite Hn. done.
Qed.

Lemma ratio_self :
  ratio (chain_b a a) = Some (calculate_ratio (len a) (len a + len a)).
Proof.
  unfold ratio. rewrite blocks_self.
  destruct (chain_b_fields a a) as (-> & -> & _).
  destruct (len a =? 0) eqn:Hn; cbn; unfold sum_sizes; cbn [foldl snd];
    do 2 f_equal; apply Z.eqb_eq in Hn || idtac; lia.
Qed.

End Reflexive.

Lemma calculate_ratio_full (n : Z) : (calculate_ratio n (n + n) == 1)%Q.
Proof.
  unfold calculate_ratio. destruct (n + n =? 0) eqn:Hn; [reflexivity|].
  apply Z.eqb_neq in Hn.
  rewrite <- inject_Z_mult. replace (2 * n) with (n + n) by lia.
  apply Qmult_inv_r. intros Hq.
  apply Hn. unfold Qeq, inject_Z in Hq. cbn in Hq. lia.
Qed.

(** ** Two sequences with no element in common *)

Lemma getitem_elem {A} (l : list A) z x : getitem l z = Some x -> x ∈ l.
Proof.
  unfold getitem. destruct (z <? 0); [destruct (len l + z <? 0); [done|]|];
    intros Hget; by apply list_elem_of_lookup_2 in Hget.
Qed.

Lemma positions_absent (x : ascii) (l : str) i0 :
  x ∉ l -> positions x i0 l = [].
Proof.
  intros Hx. destruct (positions x i0 l) as [|j js] eqn:Hpos; [done|].
  assert (Hj : j ∈ positions x i0 l) by (rewrite Hpos; by left).
  apply positions_elem in Hj as [_ Hj]. by apply list_elem_of_lookup_2 in Hj.
Qed.

Section Disjoint.

Variables a b : str.
Hypothesis Hdisjoint : forall c, c ∈ a -> c ∉ b.

Lemma row_indices_disjoint i : row_indices (chain_b a b) i = [].
Proof.
  unfold row_indices. destruct (chain_b_fields a b) as (-> & _ & _).
  destruct (getitem a i) as [x|] eqn:Hx; [|done].
  apply getitem_elem, Hdisjoint in Hx.
  destruct (b2j (chain_b a b) !! x) as [js|] eqn:Hget; [|done].
  apply chain_b_indices in Hget as ->. cbn. by apply positions_absent.
Qed.

Lemma same_elt_disjoint i j : same_elt (chain_b a b) i j = false.
Proof.
  unfold same_elt. destruct (chain_b_fields a b) as (-> & -> & _).
  destruct (getitem a i) as [x|] eqn:Hx; [|done].
  destruct (getitem b j) as [y|] eqn:Hy; [|done].
  apply bool_decide_eq_false_2. intros ->.
  apply getitem_elem in Hx, Hy. by apply Hdisjoint in Hx.
Qed.

Lemma scan_disjoint (alo ahi blo bhi : Z) :
  alo <= ahi -> (scan (chain_b a b) alo ahi blo bhi).2 = (alo, blo, 0).
Proof.
  intros Ha. unfold scan.
  pose proof (foldl_seqZ_inv (fun _ st => st.2 = (alo, blo, 0))
                (scan_step (chain_b a b) blo bhi) alo (∅, (alo, blo, 0))
                (Z.to_nat (ahi - alo))) as Hinv.
  rewrite Z2Nat.id in Hinv by lia. apply Hinv; [done|].
  intros i [j2len best] _ Hbest. cbn in Hbest. subst best.
  unfold scan_step. by rewrite row_indices_disjoint.
Qed.

Lemma grow_front_disjoint alo blo fuel junk best :
  grow_front (chain_b a b) alo blo fuel junk best = best.
Proof.
  destruct fuel as [|fuel]; [done|]. destruct best as [[besti bestj] bestsize].
  cbn [grow_front]. by rewrite same_elt_disjoint, andb_false_r.
Qed.

Lemma grow_back_disjoint ahi bhi fuel junk best :
  grow_back (chain_b a b) ahi bhi fuel junk best = best.
Proof.
  destruct fuel as [|fuel]; [done|]. destruct best as [[besti bestj] bestsize].
  cbn [grow_back]. by rewrite same_elt_disjoint, andb_false_r.
Qed.

Lemma find_longest_match_disjoint (alo ahi blo bhi : Z) :
  alo <= ahi ->
  find_longest_match (chain_b a b) alo ahi blo bhi = (alo, blo, 0).
Proof.
  intros Ha. unfold find_longest_match, while_front, while_back.
  rewrite !grow_back_disjoint, !grow_front_disjoint. by apply scan_disjoint.
Qed.

(** Nothing matches, and the ratio is 0 over the two lengths. *)
Lemma ratio_disjoint :
  ratio (new_matcher a b) = Some (calculate_ratio 0 (len a + len b)).
Proof.
  unfold ratio, get_matching_blocks, blocks_fuel, new_matcher.
  destruct (chain_b_fields a b) as (-> & -> & _).
  cbn [blocks_loop].
  rewrite find_longest_match_disjoint by (unfold len; lia).
  rewrite Z.eqb_refl, blocks_loop_nil. reflexivity.
Qed.

End Disjoint.

(** ** The order of the two strings *)

(** C7, as the spec states it, fails: [ratio("tide", "diet")] is 1/4 and
    [ratio("diet", "tide")] is 1/2. *)
Lemma ratio_not_symmetric : ~ (forall a b : str, same_ratio a b).
Proof.
  intros Hsym. specialize (Hsym (s "tide") (s "diet")).
  vm_compute in Hsym. discriminate Hsym.
Qed.

(** C7, amended: the similarity ratio of [a] and [b] equals that of [b]
    and [a] when the two strings are equal or have no character in
    common, which is the case when one of them is empty; for other pairs
    the order of the arguments can change it. *)
Theorem ratio_symmetric_equal_or_disjoint (a b : str) :
  a = b \/ (forall c, c ∈ a -> c ∉ b) -> same_ratio a b.
Proof.
  unfold same_ratio. intros [-> | Hdisjoint].
  - destruct (ratio_total (new_matcher b b)) as [r ->]. reflexivity.
  - rewrite (ratio_disjoint a b Hdisjoint).
    rewrite (ratio_disjoint b a) by (intros c Hb Ha; by apply (Hdisjoint c)).
    by rewrite Z.add_comm.
Qed.

Lemma ratio_symmetric_equal_or_disjoint_witness :
  (s "paris" = s "tokyo" \/ (forall c, c ∈ s "paris" -> c ∉ s "tokyo"))
  /\ same_ratio (s "paris") (s "tokyo").
Proof.
  assert (Hd : forall c, c ∈ s "paris" -> c ∉ s "tokyo").
  { apply Forall_forall. apply (bool_decide_unpack _). vm_compute. exact I. }
  split; [by right|].
  apply (ratio_symmetric_equal_or_disjoint (s "paris") (s "tokyo")). by right.
Defined.

Lemma ratio_empty_side (a : str) : same_ratio [] a.
Proof.
  unfold same_ratio.
  rewrite (ratio_disjoint [] a) by (intros c Hc; by apply elem_of_nil in Hc).
  rewrite (ratio_disjoint a []) by (intros c _ Hc; by apply elem_of_nil in Hc).
  by rewrite Z.add_comm.
Qed.

(** ** The matcher on the examples of its documentation *)

Example find_longest_match_doc :
  find_longest_match (new_matcher (s " abcd") (s "abcd abcd")) 0 5 0 9 = (0, 4, 5).
Proof. vm_compute. reflexivity. Qed.

Example find_longest_match_none :
  find_longest_match (new_matcher (s "ab") (s "c")) 0 2 0 1 = (0, 0, 0).
Proof. vm_compute. reflexivity. Qed.

Example ratio_doc :
  get_matching_blocks (new_matcher (s "abcd") (s "bcde")) = Some [(1, 0, 3); (4, 4, 0)]
  /\ ratio (new_matcher (s "abcd") (s "bcde")) = Some (6 # 8).
Proof. split; vm_compute; reflexivity. Qed.

(** With 200 elements or more the popular ones take no part in the
    search: [ab] and [ba], a hundred times each, share no block. *)
Example ratio_popular :
  get_matching_blocks (new_matcher (concat (repeat (s "ab") 100))
                                   (concat (repeat (s "ba") 100)))
  = Some [(200, 200, 0)].
Proof. vm_compute. reflexivity. Qed.

End DifflibFacts.

(** * Facts about the application *)

Module HomeFacts.

Import Difflib Home Inv PyStrFacts DifflibFacts.

(** ** Chunking *)

Lemma chunk_slice {A} (text : list A) (k : nat) :
  slice text (0 + Z.of_nat k * 500) (0 + Z.of_nat k * 500 + 500)
  = take 500 (drop (500 * k) text).
Proof. unfold slice. f_equal; [lia | f_equal; lia]. Qed.

Lemma concat_chunks {A} (text : list A) (m : nat) :
  concat (map (fun k : nat => take 500 (drop (500 * k) text)) (seq 0 m))
  = take (500 * m) text.
Proof.
  induction m as [|m IH].
  - by rewrite Nat.mul_0_r, take_0.
  - rewrite seq_S, map_app, concat_app, IH. simpl.
    rewrite app_nil_r, take_take_drop. f_equal. lia.
Qed.

Lemma chunks_of_eq (text : str) :
  chunks_of text
  = map (fun k : nat => take 500 (drop (500 * k) text))
        (seq 0 (Nat.min 5 (Z.to_nat ((len text + 499) / 500)))).
Proof.
  unfold chunks_of, range. rewrite map_map.
  rewrite firstn_map, take_seq.
  replace ((len text - 0 + 500 - 1) / 500) with ((len text + 499) / 500)
    by (f_equal; lia).
  apply map_ext. intros k. apply chunk_slice.
Qed.

(** C2: a text of length [L] is cut into [ceil(L/500)] chunks, at most 5
    of them are kept; every chunk has at most 500 characters, chunk [k] is
    [text[500k : 500k + 500]], and the chunks put end to end are the first
    [min(5 * 500, L)] characters of the text. *)
Theorem chunks_of_spec (text : str) :
  len (chunks_of text) = Z.min (ceil_div (len text) 500) 5
  /\ Forall (fun c => len c <= 500) (chunks_of text)
  /\ (forall (k : nat) c, chunks_of text !! k = Some c ->
        c = slice text (500 * Z.of_nat k) (500 * Z.of_nat k + 500))
  /\ concat (chunks_of text) = slice text 0 (Z.min (5 * 500) (len text)).
Proof.
  rewrite chunks_of_eq. set (L := len text).
  assert (HL : 0 <= L) by (unfold L, len; lia).
  assert (Hlen : Z.of_nat (length text) = L) by done.
  assert (Hc : ceil_div L 500 = (L + 499) / 500).
  { unfold ceil_div.
    pose proof (Z.div_mod (- L) 500 ltac:(lia)).
    pose proof (Z.mod_pos_bound (- L) 500 ltac:(lia)).
    pose proof (Z.div_mod (L + 499) 500 ltac:(lia)).
    pose proof (Z.mod_pos_bound (L + 499) 500 ltac:(lia)).
    lia. }
  pose proof (Z.div_mod (L + 499) 500 ltac:(lia)) as Hdm.
  pose proof (Z.mod_pos_bound (L + 499) 500 ltac:(lia)) as Hmb.
  set (N := (L + 499) / 500) in *.
  assert (HN : 0 <= N) by lia.
  split; [|split; [|split]].
  - unfold len at 1. rewrite length_map, length_seq, Hc. lia.
  - apply Forall_forall. intros c Hin.
    apply list_elem_of_In, in_map_iff in Hin. destruct Hin as (k & <- & _).
    unfold len. rewrite length_take. lia.
  - intros k c Hk. change (map ?f ?l) with (f <$> l) in Hk.
    rewrite list_lookup_fmap in Hk.
    destruct (seq 0 _ !! k) as [k'|] eqn:Hs; [|done].
    apply lookup_seq in Hs. destruct Hs as [-> _]. simpl in Hk.
    injection Hk as <-. unfold slice. f_equal; [lia | f_equal; lia].
  - rewrite concat_chunks. unfold slice. rewrite drop_0.
    destruct (decide (N <= 5)) as [Hle|Hgt].
    + rewrite !take_ge; [done | |]; lia.
    + f_equal. lia.
Qed.

(** ** Normalisation and the threshold *)

Lemma in_class_spec (c : ascii) :
  in_class c = is_ascii_letter c || is_digit c || is_plain_space c.
Proof. destruct c as [[] [] [] [] [] [] [] []]; reflexivity. Qed.

Lemma re_sub_empty_filter (keep : ascii -> bool) (text : str) :
  re_sub_empty (fun c => negb (keep c)) text = List.filter keep text.
Proof.
  induction text as [|c text IH]; [done|]. cbn.
  destruct (keep c); cbn; by rewrite IH.
Qed.

(** [clean_text] is the normalisation of the spec. *)
Lemma clean_text_spec_normalize (text : str) :
  clean_text text = spec_normalize text.
Proof.
  unfold clean_text, spec_normalize. rewrite re_sub_empty_filter. f_equal.
  apply filter_ext. intros c. apply in_class_spec.
Qed.

(** The validator always reaches a verdict. *)
Lemma is_answer_correct_total (user_answer correct_answer : str) (threshold : Q) :
  is_Some (is_answer_correct user_answer correct_answer threshold).
Proof.
  unfold is_answer_correct.
  destruct (ratio_total (new_matcher (clean_text user_answer)
                                     (clean_text correct_answer))) as [r ->].
  by eexists.
Qed.

(** C1: the validator always reaches a verdict, and it declares the
    answer correct exactly when the similarity ratio of the two
    normalised strings (lowercase, only ASCII letters, digits and spaces
    kept, trimmed) is at least 0.8. *)
Theorem is_answer_correct_threshold (user_answer oracle_answer : str) :
  exists similarity,
    ratio (new_matcher (spec_normalize user_answer) (spec_normalize oracle_answer))
      = Some similarity
    /\ (is_answer_correct user_answer oracle_answer default_threshold = Some true
        <-> (8 # 10 <= similarity)%Q)
    /\ (is_answer_correct user_answer oracle_answer default_threshold = Some false
        <-> ~ (8 # 10 <= similarity)%Q).
Proof.
  destruct (ratio_total (new_matcher (spec_normalize user_answer)
                                     (spec_normalize oracle_answer)))
    as [similarity Hr].
  exists similarity. split; [done|].
  unfold is_answer_correct. rewrite !clean_text_spec_normalize, Hr. cbn.
  unfold default_threshold. rewrite <- Qle_bool_iff.
  destruct (Qle_bool (8 # 10) similarity); split; split; congruence.
Qed.

(** C10: checking an answer against itself succeeds, whatever the
    answer; the similarity ratio of two empty strings is 1. *)
Theorem is_answer_correct_reflexive (answer : str) :
  is_answer_correct answer answer default_threshold = Some true
  /\ ratio (new_matcher [] []) = Some 1%Q.
Proof.
  split; [|reflexivity].
  unfold is_answer_correct, new_matcher. rewrite ratio_self. cbn. f_equal.
  apply Qle_bool_iff. rewrite calculate_ratio_full. done.
Qed.

(** The two examples of the spec. *)
Example new_york_city :
  is_answer_correct (s "New York City") (s "new york city") default_threshold
  = Some true.
Proof. vm_compute. reflexivity. Qed.

Example paris_london :
  is_answer_correct (s "Paris") (s "London") default_threshold = Some false.
Proof. vm_compute. reflexivity. Qed.

(** ** The handlers *)

Section HandlerFacts.

Context `{C : Collaborators}.

Lemma get_texts_outcome (doc : list (Exn + str)) : forall page w r w',
  get_texts page doc w = (r, w') ->
  oracle w' = oracle w
  /\ r <> OutOfFuel
  /\ exists evs, trace w' = trace w ++ evs
                 /\ Forall (fun ev => is_qa_call ev = false) evs.
Proof.
  induction doc as [|p doc IH]; intros page w r w' Hrun.
  - injection Hrun as <- <-. repeat split; [done|].
    exists []. by rewrite app_nil_r.
  - cbn [get_texts] in Hrun. unfold bind, emit in Hrun. cbn in Hrun.
    destruct p as [e|t]; cbn in Hrun.
    + injection Hrun as <- <-. repeat split; [done|].
      exists [EvGetText page]. split; [done|]. by repeat constructor.
    + destruct (get_texts (S page) doc _) as [[ts|e|] w1] eqn:Hrec;
        apply IH in Hrec as (Ho & Hne & evs & Htr & Hev); cbn in *;
        injection Hrun as <- <-; (repeat split; [done..|]);
        exists (EvGetText page :: evs); rewrite Htr, <- app_assoc;
        (split; [done|]); by constructor.
Qed.

(** The extraction leaves the oracles alone, always comes back, and
    calls nothing but the file and the parser. *)
Lemma extract_outcome (file : UploadFile) w r w' :
  extract_text_from_pdf file w = (r, w') ->
  oracle w' = oracle w
  /\ r <> OutOfFuel
  /\ exists evs, trace w' = trace w ++ evs
                 /\ Forall (fun ev => is_qa_call ev = false) evs.
Proof.
  unfold extract_text_from_pdf, try_except, bind, raise, ret, emit.
  destruct (filename file) as [name|]; cbn.
  2:{ intros [= <- <-]. repeat split; [done|]. exists []. by rewrite app_nil_r. }
  destruct (endswith name (s ".pdf")); cbn.
  2:{ intros [= <- <-]. repeat split; [done|]. exists []. by rewrite app_nil_r. }
  destruct (fitz_open (content file)) as [e|doc]; cbn.
  { intros [= <- <-]. repeat split; [done|].
    eexists. rewrite <- app_assoc. split; [done|]. by repeat constructor. }
  destruct (len doc =? 0); cbn.
  { intros [= <- <-]. repeat split; [done|].
    eexists. rewrite <- app_assoc. split; [done|]. by repeat constructor. }
  destruct (get_texts 0 doc _) as [[ts|e|] w1] eqn:Hts;
    apply get_texts_outcome in Hts as (Ho & Hne & evs & Htr & Hev); cbn in *;
    [ destruct (is_empty _) | | done ];
    intros [= <- <-]; (repeat split; [done..|]);
    exists (EvRead (content file) :: EvFitzOpen (content file) :: evs);
    rewrite Htr, <- !app_assoc; (split; [done|]); by repeat constructor.
Qed.

(** A file name that does not end in [.pdf]: the 400 raised on line 38
    is caught on line 52 and leaves as a 500, before the file is read. *)
Lemma extract_rejects_other_names (file : UploadFile) name w :
  filename file = Some name ->
  endswith name (s ".pdf") = false ->
  extract_text_from_pdf file w
  = (Raise (HTTPException 500
              (s "Error processing PDF: " ++ str_exc InvalidFormat)), w).
Proof.
  intros Hname Hend.
  unfold extract_text_from_pdf, try_except, bind, raise, ret.
  by rewrite Hname, Hend.
Qed.

(** What a successful extraction returns: at most 5000 characters, no
    whitespace at either end. *)
Lemma extract_success_shape (file : UploadFile) w text w' :
  extract_text_from_pdf file w = (Ok text, w') ->
  len text <= 5000
  /\ (forall c, head text = Some c -> isspace c = false)
  /\ (forall c, last text = Some c -> isspace c = false).
Proof.
  unfold extract_text_from_pdf, try_except, bind, raise, ret, emit.
  destruct (filename file) as [name|]; cbn; [|done].
  destruct (endswith name (s ".pdf")); cbn; [|done].
  destruct (fitz_open (content file)) as [e|doc]; cbn; [done|].
  destruct (len doc =? 0); cbn; [done|].
  destruct (get_texts 0 doc _) as [[ts|e|] w1]; cbn; [|done..].
  destruct (is_empty _); [done|]. intros [= <- <-].
  split; [|split].
  - unfold len, slice.
    pose proof (strip_length (take (Z.to_nat 5000 - Z.to_nat 0)
      (drop (Z.to_nat 0) (join (s (String "010" EmptyString)) ts)))) as Hl.
    rewrite length_take in Hl. lia.
  - apply strip_head.
  - apply strip_last.
Qed.

(** An invariant of a [for] loop. *)
Lemma for_each_inv {A St} (P : St -> Prop) (body : St -> A -> M St) :
  (forall acc x w acc' w', P acc -> body acc x w = (Ok acc', w') -> P acc') ->
  forall l acc w acc' w',
    P acc -> for_each body l acc w = (Ok acc', w') -> P acc'.
Proof.
  intros Hbody l. induction l as [|x l IH]; intros acc w acc' w' HP Hrun.
  - by injection Hrun as <- <-.
  - cbn [for_each] in Hrun. unfold bind in Hrun.
    destruct (body acc x w) as [[acc1|e|] w1] eqn:Hb; [|done..].
    eapply IH; [|done]. by eapply Hbody.
Qed.

Lemma first_generated_outcome (prompt : str) w :
  (exists t w', first_generated prompt w = (Ok t, w'))
  \/ (exists e w', first_generated prompt w = (Raise e, w')).
Proof.
  unfold first_generated, run_generator, call_oracle, bind, of_sum, ret, raise.
  destruct (generator prompt 50 1 (oracle w)) as [[e|[|t out]] o]; cbn; eauto.
Qed.

(** [generate_possible_answers] never raises; what it returns depends on
    the answer type and on whether the generator failed. *)
Lemma generate_possible_answers_outcome (q answer_type : str) w :
  exists ans w',
    generate_possible_answers q answer_type w = (Ok ans, w')
    /\ answers_shape answer_type ans.
Proof.
  unfold generate_possible_answers, try_except, answers_shape, str_eqb.
  destruct (decide (answer_type = MCQ)) as [->|Hm].
  { rewrite bool_decide_eq_true_2 by done. unfold bind.
    repeat match goal with
    | |- context [first_generated ?p ?w0] =>
        destruct (first_generated_outcome p w0) as [(? & ? & ->)|(? & ? & ->)]
    end; cbn; eexists _, _; (split; [reflexivity|]);
      (split; [|split]); try done; intros _; auto. }
  rewrite (bool_decide_eq_false_2 (answer_type = MCQ)) by done.
  destruct (decide (answer_type = SiNo)) as [->|Hs].
  { rewrite bool_decide_eq_true_2 by done. cbn.
    eexists _, _. split; [reflexivity|]. by repeat split. }
  rewrite (bool_decide_eq_false_2 (answer_type = SiNo)) by done.
  destruct (decide (answer_type = RespuestaCorta)) as [->|Hr].
  { rewrite bool_decide_eq_true_2 by done. unfold bind.
    match goal with
    | |- context [first_generated ?p ?w0] =>
        destruct (first_generated_outcome p w0) as [(? & ? & ->)|(? & ? & ->)]
    end; cbn; eexists _, _; (split; [reflexivity|]); by repeat split. }
  rewrite (bool_decide_eq_false_2 (answer_type = RespuestaCorta)) by done.
  cbn. eexists _, _. split; [reflexivity|]. by repeat split.
Qed.

Lemma generate_answer_type_outcome w :
  exists answer_type w',
    generate_answer_type w = (Ok answer_type, w')
    /\ answer_type ∈ ANSWER_TYPES.
Proof.
  unfold generate_answer_type, random_choice.
  destruct (random_draw (oracle w)) as [r o].
  assert (Hr : (r mod length ANSWER_TYPES < 3)%nat)
    by (apply Nat.mod_upper_bound; done).
  destruct (r mod length ANSWER_TYPES)%nat as [|[|[|n]]]; [| | |lia];
    cbn; eexists _, _; (split; [reflexivity|]); unfold ANSWER_TYPES;
    set_solver.
Qed.

Lemma clean_generated_text_question (text : str) :
  is_empty (clean_generated_text text) = false ->
  endswith (clean_generated_text text) (s "?") = true.
Proof.
  unfold clean_generated_text.
  by destruct (endswith (strip text) (s "?")) eqn:He.
Qed.

Lemma question_step_well_formed questions text w questions' w' :
  Forall well_formed questions ->
  question_step questions text w = (Ok questions', w') ->
  Forall well_formed questions'.
Proof.
  intros Hq. unfold question_step.
  destruct (is_empty (clean_generated_text text)) eqn:Hc; cbn.
  { by intros [= <- <-]. }
  unfold bind.
  destruct (generate_answer_type_outcome w) as (ty & w1 & -> & Hty).
  destruct (generate_possible_answers_outcome (clean_generated_text text) ty w1)
    as (ans & w2 & -> & Hans).
  intros [= <- <-]. apply Forall_app. split; [done|].
  constructor; [|done]. exists (clean_generated_text text), ty. cbn.
  repeat split; try done; try apply Hans.
  by apply clean_generated_text_question.
Qed.

Lemma chunk_step_well_formed difficulty questions chunk w questions' w' :
  Forall well_formed questions ->
  chunk_step difficulty questions chunk w = (Ok questions', w') ->
  Forall well_formed questions'.
Proof.
  intros Hq. unfold chunk_step, try_except, bind.
  destruct (run_generator _ 128 2 w) as [[generated|e|] w1]; [|done..].
  destruct (for_each question_step generated questions w1)
    as [[qs|e|] w2] eqn:Hloop; [|done..].
  intros [= <- <-].
  by eapply (for_each_inv _ _ question_step_well_formed) in Hloop.
Qed.

Lemma generate_questions_well_formed file difficulty w questions w' :
  generate_questions file difficulty w = (Ok questions, w') ->
  Forall well_formed questions.
Proof.
  unfold generate_questions, questions_from_text, bind.
  destruct (extract_text_from_pdf file w) as [[text|e|] w1]; [|done..].
  destruct (is_empty text); [done|].
  destruct (for_each (chunk_step difficulty) (chunks_of text) [] w1)
    as [[qs|e|] w2] eqn:Hloop; [|done..].
  eapply (for_each_inv _ _ (chunk_step_well_formed difficulty)) in Hloop;
    [|constructor].
  destruct qs as [|q qs]; [done|]. intros [= <- <-].
  change (q :: take 9 qs) with (take 10 (q :: qs)). by apply Forall_take.
Qed.

(** A generated text is accepted exactly when it ends with a question
    mark once trimmed; the record then holds the trimmed text. *)
Lemma question_step_accepts questions text w :
  exists questions' w',
    question_step questions text w = (Ok questions', w')
    /\ (if endswith (strip text) (s "?")
        then exists q, questions' = questions ++ [q] /\ question q = [strip text]
        else questions' = questions).
Proof.
  unfold question_step, clean_generated_text.
  destruct (endswith (strip text) (s "?")) eqn:Hend.
  - assert (Hne : is_empty (strip text) = false).
    { destruct (strip text); [discriminate Hend|done]. }
    rewrite Hne. cbn [negb]. unfold bind.
    destruct (generate_answer_type_outcome w) as (ty & w1 & -> & _).
    destruct (generate_possible_answers_outcome (strip text) ty w1)
      as (ans & w2 & -> & _).
    eexists _, _. split; [reflexivity|]. by eexists.
  - cbn. by eexists _, _.
Qed.

(** The loops of [generate_questions] always come back. *)
Lemma question_step_returns questions text w :
  exists questions' w', question_step questions text w = (Ok questions', w').
Proof.
  unfold question_step.
  destruct (is_empty (clean_generated_text text)); cbn; [by eexists _, _|].
  unfold bind.
  destruct (generate_answer_type_outcome w) as (ty & w1 & -> & _).
  destruct (generate_possible_answers_outcome (clean_generated_text text) ty w1)
    as (ans & w2 & -> & _).
  by eexists _, _.
Qed.

Lemma question_loop_returns generated : forall questions w,
  exists questions' w',
    for_each question_step generated questions w = (Ok questions', w').
Proof.
  induction generated as [|text generated IH]; intros questions w.
  - by eexists _, _.
  - cbn [for_each]. unfold bind.
    destruct (question_step_returns questions text w) as (qs & w1 & ->).
    apply IH.
Qed.

Lemma chunk_step_returns difficulty questions chunk w r w' :
  chunk_step difficulty questions chunk w = (r, w') -> r <> OutOfFuel.
Proof.
  unfold chunk_step, try_except, bind, run_generator, call_oracle, of_sum.
  destruct (generator _ 128 2 (oracle w)) as [[e|generated] o]; cbn.
  { by intros [= <- <-]. }
  match goal with
  | |- context [for_each question_step generated questions ?w0] =>
      destruct (question_loop_returns generated questions w0) as (qs & w1 & ->)
  end.
  by intros [= <- <-].
Qed.

Lemma chunk_loop_returns difficulty chunks : forall questions w r w',
  for_each (chunk_step difficulty) chunks questions w = (r, w') ->
  r <> OutOfFuel.
Proof.
  induction chunks as [|chunk chunks IH]; intros questions w r w'.
  - by intros [= <- <-].
  - cbn [for_each]. unfold bind.
    destruct (chunk_step difficulty questions chunk w) as [[qs|e|] w1] eqn:Hstep.
    + apply IH.
    + by intros [= <- <-].
    + by apply chunk_step_returns in Hstep.
Qed.

(** The two handlers never end in the model's own [OutOfFuel]. *)
Lemma generate_questions_returns file difficulty w r w' :
  generate_questions file difficulty w = (r, w') -> r <> OutOfFuel.
Proof.
  unfold generate_questions, questions_from_text, bind.
  destruct (extract_text_from_pdf file w) as [[text|e|] w1] eqn:Hext.
  - destruct (is_empty text); [by intros [= <- <-]|].
    destruct (for_each (chunk_step difficulty) (chunks_of text) [] w1)
      as [[qs|e|] w2] eqn:Hloop.
    + destruct qs; by intros [= <- <-].
    + by intros [= <- <-].
    + by apply chunk_loop_returns in Hloop.
  - by intros [= <- <-].
  - by apply extract_outcome in Hext as (_ & ? & _).
Qed.

Lemma validate_answers_returns file question user_answer w r w' :
  validate_answers file question user_answer w = (r, w') -> r <> OutOfFuel.
Proof.
  unfold validate_answers, validate_with_context, bind.
  destruct (extract_text_from_pdf file w) as [[context|e|] w1] eqn:Hext.
  - destruct (is_empty question || is_empty user_answer || is_empty context);
      [by intros [= <- <-]|].
    unfold try_except, call_oracle, of_sum, of_option, bind, ret, raise.
    destruct (qa_pipeline _ _ (oracle w1)) as [[e|response] o];
      cbn -[is_answer_correct]; [by intros [= <- <-]|].
    destruct (default [] response) as [|a0 correct_answer];
      cbn -[is_answer_correct]; [by intros [= <- <-]|].
    destruct (is_answer_correct_total user_answer (a0 :: correct_answer)
                default_threshold) as [ok ->].
    cbn. by intros [= <- <-].
  - by intros [= <- <-].
  - by apply extract_outcome in Hext as (_ & ? & _).
Qed.

(** C5: in a successful response every record holds one question
    string, and it ends with a question mark. *)
Theorem questions_end_with_question_mark file difficulty w questions w' :
  generate_questions file difficulty w = (Ok questions, w') ->
  Forall (fun q => exists clean_q,
            question q = [clean_q] /\ endswith clean_q (s "?") = true)
         questions.
Proof.
  intros Hrun. apply generate_questions_well_formed in Hrun.
  eapply Forall_impl; [exact Hrun|].
  intros q (clean_q & ty & Hq & Hend & _). by exists clean_q.
Qed.

(** C6, amended: a record has one of the three answer types; a
    multiple-choice record has 4 candidate answers or, when a generator
    call failed, the one placeholder; a yes/no record has the two answers
    Sí and No; a short-answer record has 1 candidate answer. *)
Theorem candidate_answers_by_type file difficulty w questions w' :
  generate_questions file difficulty w = (Ok questions, w') ->
  Forall (fun q => exists answer_type,
            type q = [answer_type] /\ answer_type ∈ ANSWER_TYPES
            /\ (answer_type = MCQ ->
                  length (answers q) = 4%nat \/ answers q = [placeholder])
            /\ (answer_type = SiNo -> answers q = [Si; No])
            /\ (answer_type = RespuestaCorta -> length (answers q) = 1%nat))
         questions.
Proof.
  intros Hrun. apply generate_questions_well_formed in Hrun.
  eapply Forall_impl; [exact Hrun|].
  intros q (clean_q & ty & _ & _ & Hty & Hin & Hshape). by exists ty.
Qed.

(** C8, amended: when the text is there and the loop over the chunks
    ends without one accepted question, [generate_questions] raises
    NoQuestionsGenerated, with status 500, the internal-failure category. *)
Theorem no_questions_is_a_500 file difficulty w text w1 w2 :
  extract_text_from_pdf file w = (Ok text, w1) ->
  is_empty text = false ->
  for_each (chunk_step difficulty) (chunks_of text) [] w1 = (Ok [], w2) ->
  generate_questions file difficulty w = (Raise NoQuestionsGenerated, w2)
  /\ status_category NoQuestionsGenerated = InternalFailure.
Proof.
  intros Hext Htext Hloop. split; [|reflexivity].
  unfold generate_questions, questions_from_text, bind.
  by rewrite Hext, Htext, Hloop.
Qed.

(** C9: once the context is extracted, [validate_answers] fails with
    InvalidInput, a 400, as soon as the question, the user answer or the
    context is empty, and the question answerer has not been called; with
    all three non-empty it goes on to call the question answerer. *)
Theorem validate_requires_all_inputs file question user_answer w context w1 :
  extract_text_from_pdf file w = (Ok context, w1) ->
  (question = [] \/ user_answer = [] \/ context = [] ->
     validate_answers file question user_answer w = (Raise InvalidInput, w1)
     /\ status_category InvalidInput = BadInput
     /\ exists evs, trace w1 = trace w ++ evs
                    /\ Forall (fun ev => is_qa_call ev = false) evs)
  /\ (question <> [] -> user_answer <> [] -> context <> [] ->
      exists r w2,
        validate_answers file question user_answer w = (r, w2)
        /\ r <> Raise InvalidInput
        /\ trace w2 = trace w1 ++ [EvQA question context]).
Proof.
  intros Hext. split.
  - intros Hempty. split; [|split; [reflexivity|]].
    + unfold validate_answers, validate_with_context, bind. rewrite Hext.
      destruct Hempty as [-> | [-> | ->]]; cbn; [done| |].
      * by destruct question.
      * by destruct question, user_answer.
    + by apply extract_outcome in Hext as (_ & _ & Hev).
  - intros Hq Hu Hc.
    unfold validate_answers, validate_with_context, bind. rewrite Hext.
    destruct question as [|q0 question]; [done|].
    destruct user_answer as [|u0 user_answer]; [done|].
    destruct context as [|c0 context]; [done|]. cbn [is_empty orb].
    unfold try_except, call_oracle, of_sum, of_option, bind, ret, raise.
    destruct (qa_pipeline _ _ (oracle w1)) as [[e|response] o];
      cbn -[is_answer_correct].
    { eexists _, _. split; [reflexivity|]. split; [done|reflexivity]. }
    destruct (default [] response) as [|a0 correct_answer];
      cbn -[is_answer_correct].
    { eexists _, _. split; [reflexivity|]. split; [done|reflexivity]. }
    destruct (is_answer_correct (u0 :: user_answer) _ _) as [ok|]; cbn;
      eexists _, _; (split; [reflexivity|]); (split; [done|reflexivity]).
Qed.

(** C4: a file named [notes.txt] is turned away before it is read, but
    the 400 of line 38 is caught by the handler of line 52 and reaches
    the caller as a 500. *)
Theorem other_file_name_leaves_as_500 w :
  extract_text_from_pdf (pdf "notes.txt") w
  = (Raise (HTTPException 500
              (s "Error processing PDF: " ++ str_exc InvalidFormat)), w)
  /\ status_category
       (HTTPException 500 (s "Error processing PDF: " ++ str_exc InvalidFormat))
     = InternalFailure.
Proof.
  split; [|reflexivity].
  by apply (extract_rejects_other_names _ (s "notes.txt")).
Qed.

End HandlerFacts.

Lemma questions_end_with_question_mark_witness :
  run_once.1 = Ok [what_is_it]
  /\ Forall (fun q => exists clean_q,
               question q = [clean_q] /\ endswith clean_q (s "?") = true)
            [what_is_it].
Proof.
  split; [vm_compute; reflexivity|].
  apply (@questions_end_with_question_mark demo_once (pdf "doc.pdf")
           (s "medium") (@start demo_once 0%nat) [what_is_it] run_once.2).
  vm_compute; reflexivity.
Defined.

(** C6, as the spec states it, fails: the generator gives one question
    and then fails, the draw picks the multiple-choice type, and the
    record comes back with the placeholder as its only candidate. *)
Lemma four_candidates_counterexample :
  ~ (forall (C : Collaborators) file difficulty w questions w',
       generate_questions file difficulty w = (Ok questions, w') ->
       Forall claimed_shape questions).
Proof.
  intros Hclaim.
  specialize (Hclaim demo_once (pdf "doc.pdf") (s "medium")
                (@start demo_once 0%nat) [what_is_it] _ eq_refl).
  apply Forall_inv in Hclaim. destruct Hclaim as [Hmcq _].
  specialize (Hmcq eq_refl). discriminate Hmcq.
Qed.

Lemma candidate_answers_by_type_witness :
  run_why.1 = Ok [why_record]
  /\ Forall (fun q => exists answer_type,
            type q = [answer_type] /\ answer_type ∈ ANSWER_TYPES
            /\ (answer_type = MCQ ->
                  length (answers q) = 4%nat \/ answers q = [placeholder])
            /\ (answer_type = SiNo -> answers q = [Si; No])
            /\ (answer_type = RespuestaCorta -> length (answers q) = 1%nat))
         [why_record].
Proof.
  split; [vm_compute; reflexivity|].
  apply (@candidate_answers_by_type demo_why (pdf "doc.pdf")
           (s "medium") (@start demo_why 0%nat) [why_record] run_why.2).
  vm_compute; reflexivity.
Defined.

(** C8, as the spec states it, fails: with a generator that never gives
    a question the error is the 500 of line 111, not a bad-input status. *)
Lemma no_questions_bad_input_counterexample :
  ~ (forall (C : Collaborators) file difficulty w text w1 w2,
       extract_text_from_pdf file w = (Ok text, w1) ->
       is_empty text = false ->
       for_each (chunk_step difficulty) (chunks_of text) [] w1 = (Ok [], w2) ->
       exists e, generate_questions file difficulty w = (Raise e, w2)
                 /\ status_category e = BadInput).
Proof.
  intros Hclaim.
  destruct (Hclaim demo_statements (pdf "doc.pdf") (s "medium")
              (@start demo_statements 0%nat) _ _ _ eq_refl eq_refl eq_refl)
    as (e & Hrun & Hcat).
  vm_compute in Hrun. injection Hrun as <-. discriminate Hcat.
Qed.

Lemma no_questions_is_a_500_witness :
  extract_statements.1 = Ok (s "Some text.")
  /\ loop_statements.1 = Ok []
  /\ @generate_questions demo_statements (pdf "doc.pdf") (s "medium")
       (@start demo_statements 0%nat)
     = (Raise NoQuestionsGenerated, loop_statements.2).
Proof.
  split; [vm_compute; reflexivity|]. split; [vm_compute; reflexivity|].
  apply (@no_questions_is_a_500 demo_statements (pdf "doc.pdf") (s "medium")
           (@start demo_statements 0%nat) (s "Some text.")
           extract_statements.2 loop_statements.2).
  - vm_compute; reflexivity.
  - reflexivity.
  - vm_compute; reflexivity.
Defined.

Lemma validate_requires_all_inputs_witness :
  extract_why.1 = Ok (s "Some text.")
  /\ @validate_answers demo_why (pdf "doc.pdf") [] (s "Paris")
       (@start demo_why 0%nat)
     = (Raise InvalidInput, extract_why.2).
Proof.
  split; [vm_compute; reflexivity|].
  apply (@validate_requires_all_inputs demo_why (pdf "doc.pdf") [] (s "Paris")
           (@start demo_why 0%nat) (s "Some text.") extract_why.2).
  - vm_compute; reflexivity.
  - by left.
Defined.

Lemma blank_page_checks :
  is_empty (strip (join (s (String "010" EmptyString)) [blank_page])) = false
  /\ strip (slice (join (s (String "010" EmptyString)) [blank_page]) 0 5000) = [].
Proof. split; vm_compute; reflexivity. Qed.

(** C3: a page of 5000 blanks and one letter passes the test of line 48;
    line 51 cuts the letter off and trims the rest, and the extraction
    succeeds with the empty string. *)
Theorem blank_prefix_gives_empty_text w :
  @extract_text_from_pdf demo_blank (pdf "doc.pdf") w
  = (Ok [], {| oracle := oracle w;
               trace := trace w ++ [EvRead (s "%PDF-1.4");
                                    EvFitzOpen (s "%PDF-1.4"); EvGetText 0] |}).
Proof.
  destruct blank_page_checks as [Hne Hempty].
  unfold extract_text_from_pdf, try_except, bind, raise, ret, emit.
  cbn -[strip join slice blank_page].
  rewrite Hne, Hempty.
  replace (endswith (s "doc.pdf") (s ".pdf")) with true
    by (vm_compute; reflexivity).
  change (len [inr blank_page : Exn + str] =? 0) with false.
  cbn. by rewrite <- !app_assoc.
Qed.

(** A page of blanks only: the 400 of line 49 leaves as a 500 too. *)
Lemma blank_text_leaves_as_500 (w : @World (scripted [inr (s "   ")] script_why 0 (inr None))) :
  (@extract_text_from_pdf (scripted [inr (s "   ")] script_why 0 (inr None))
     (pdf "doc.pdf") w).1
  = Raise (HTTPException 500
             (s "Error processing PDF: " ++ starlette_str NoExtractableText)).
Proof. reflexivity. Qed.

End HomeFacts.

(** * Further properties of the code *)

Module CoverFacts.
Import Difflib Home Inv Cover PyStrFacts DifflibFacts HomeFacts.

(** ** Trimming *)

Lemma lstrip_fixed (t : str) :
  (forall c, head t = Some c -> isspace c = false) -> lstrip t = t.
Proof.
  destruct t as [|x t]; [done|]. intros Hh. cbn. by rewrite (Hh x eq_refl).
Qed.

Lemma head_rev_last {A} (l : list A) : head (rev l) = last l.
Proof.
  rewrite <- (rev_involutive l) at 2. by rewrite last_rev_head.
Qed.

Lemma rstrip_fixed (t : str) :
  (forall c, last t = Some c -> isspace c = false) -> rstrip t = t.
Proof.
  intros Hl. unfold rstrip. rewrite lstrip_fixed; [apply rev_involutive|].
  intros c. rewrite head_rev_last. apply Hl.
Qed.

Lemma strip_fixed (t : str) :
  (forall c, head t = Some c -> isspace c = false) ->
  (forall c, last t = Some c -> isspace c = false) -> strip t = t.
Proof.
  intros Hh Hl. unfold strip. rewrite lstrip_fixed by done. by apply rstrip_fixed.
Qed.

Lemma strip_idempotent (t : str) : strip (strip t) = strip t.
Proof. apply strip_fixed; [apply strip_head | apply strip_last]. Qed.

Lemma Forall_lstrip (P : ascii -> Prop) (t : str) :
  Forall P t -> Forall P (lstrip t).
Proof.
  induction 1 as [|x t Hx Ht IH]; cbn; [done|].
  destruct (isspace x); [done|by constructor].
Qed.

Lemma Forall_strip (P : ascii -> Prop) (t : str) :
  Forall P t -> Forall P (strip t).
Proof.
  intros Ht. unfold strip, rstrip.
  apply Forall_rev, Forall_lstrip, Forall_rev. by apply Forall_lstrip.
Qed.

(** ** [clean_generated_text] *)

(** X1: cleaning a generated text twice is cleaning it once; the result
    is either empty or the trimmed text, which then ends with a question
    mark, and it has no whitespace at either end. *)
Theorem clean_generated_text_idempotent (text : str) :
  clean_generated_text (clean_generated_text text) = clean_generated_text text
  /\ (clean_generated_text text = []
      \/ (clean_generated_text text = strip text
          /\ endswith (strip text) (s "?") = true))
  /\ (forall c, head (clean_generated_text text) = Some c -> isspace c = false)
  /\ (forall c, last (clean_generated_text text) = Some c -> isspace c = false).
Proof.
  unfold clean_generated_text.
  destruct (endswith (strip text) (s "?")) eqn:Hend.
  - rewrite strip_idempotent, Hend. repeat split; try (by right).
    + apply strip_head.
    + apply strip_last.
  - repeat split; try done. by left.
Qed.

(** ** [clean_text] *)

Lemma lower_char_clean (c : ascii) :
  in_class (lower_char c) = true ->
  is_clean_char (lower_char c) = true
  /\ lower_char (lower_char c) = lower_char c.
Proof. destruct c as [[] [] [] [] [] [] [] []]; cbv; intros; (done || by split). Qed.

Lemma is_clean_char_fixed (c : ascii) :
  is_clean_char c = true -> lower_char c = c /\ in_class c = true.
Proof. destruct c as [[] [] [] [] [] [] [] []]; cbv; intros; (done || by split). Qed.

Lemma clean_text_chars (text : str) :
  Forall (fun c => is_clean_char c = true) (clean_text text).
Proof.
  unfold clean_text. apply Forall_strip. rewrite re_sub_empty_filter.
  apply Forall_forall. intros c Hc. apply list_elem_of_In, filter_In in Hc as [Hin Hk].
  unfold lower in Hin. apply in_map_iff in Hin as (c' & <- & _).
  by apply lower_char_clean.
Qed.

Lemma clean_fixed (t : str) :
  Forall (fun c => is_clean_char c = true) t ->
  re_sub_empty (fun c => negb (in_class c)) (lower t) = t.
Proof.
  induction 1 as [|c t Hc Ht IH]; [done|]. cbn.
  destruct (is_clean_char_fixed c Hc) as [-> ->]. cbn. by f_equal.
Qed.

Lemma clean_text_twice (text : str) :
  clean_text (clean_text text) = clean_text text.
Proof.
  unfold clean_text at 1. rewrite clean_fixed by apply clean_text_chars.
  unfold clean_text. apply strip_idempotent.
Qed.

(** X3: a normal form holds only lowercase ASCII letters, digits and
    plain spaces, has no space at either end and is no longer than the
    text it comes from. *)
Theorem clean_text_shape (text : str) :
  Forall (fun c => is_clean_char c = true) (clean_text text)
  /\ head (clean_text text) <> Some " "%char
  /\ last (clean_text text) <> Some " "%char
  /\ len (clean_text text) <= len text.
Proof.
  split; [apply clean_text_chars|]. unfold clean_text. split; [|split].
  - intros Hh. by apply strip_head in Hh.
  - intros Hl. by apply strip_last in Hl.
  - unfold len. pose proof (strip_length (re_sub_empty (fun c => negb (in_class c)) (lower text))) as Hs.
    rewrite re_sub_empty_filter in *.
    pose proof (filter_length_le in_class (lower text)) as Hf.
    unfold lower in *. rewrite length_map in Hf. lia.
Qed.

Lemma clean_text_lower (t : str) : clean_text (lower t) = clean_text t.
Proof.
  unfold clean_text. do 2 f_equal. unfold lower. rewrite map_map.
  apply map_ext_in. intros c _.
  destruct c as [[] [] [] [] [] [] [] []]; reflexivity.
Qed.


(** ** The size of the matching blocks *)

Lemma sum_sizes_from (blocks : list Match) : forall acc,
  foldl (fun acc (triple : Match) => acc + triple.2) acc blocks
  = acc + sum_sizes blocks.
Proof.
  unfold sum_sizes. induction blocks as [|x blocks IH]; intros acc; cbn.
  - lia.
  - rewrite IH, (IH (0 + x.2)). lia.
Qed.

Lemma sum_sizes_cons x blocks : sum_sizes (x :: blocks) = x.2 + sum_sizes blocks.
Proof. unfold sum_sizes at 1. cbn. rewrite sum_sizes_from. lia. Qed.

Lemma sum_sizes_app l1 l2 : sum_sizes (l1 ++ l2) = sum_sizes l1 + sum_sizes l2.
Proof.
  induction l1 as [|x l1 IH]; [by cbn|].
  cbn [app]. rewrite !sum_sizes_cons, IH. lia.
Qed.

Lemma sum_sizes_perm l1 l2 : l1 ≡ₚ l2 -> sum_sizes l1 = sum_sizes l2.
Proof.
  induction 1 as [|x l1 l2 _ IH|x y l|l1 l2 l3 _ IH1 _ IH2];
    rewrite ?sum_sizes_cons; lia.
Qed.

Lemma collapse_sum (blocks : list Match) :
  sum_sizes (collapse blocks) = sum_sizes blocks.
Proof.
  unfold collapse.
  assert (Hinv : forall l st,
            sum_sizes (foldl collapse_step st l).2 + (foldl collapse_step st l).1.2
            = sum_sizes st.2 + st.1.2 + sum_sizes l).
  { induction l as [|x l IH]; intros [[[i1 j1] k1] na]; cbn [foldl].
    - change (sum_sizes []) with 0. lia.
    - rewrite IH, sum_sizes_cons. destruct x as [[i2 j2] k2]. cbn [collapse_step].
      destruct ((i1 + k1 =? i2) && (j1 + k1 =? j2)); cbn [fst snd]; [lia|].
      destruct (k1 =? 0) eqn:Hk; [apply Z.eqb_eq in Hk; lia|].
      rewrite sum_sizes_app, sum_sizes_cons. change (sum_sizes []) with 0.
      cbn [fst snd]. lia. }
  specialize (Hinv blocks ((0, 0, 0), [])).
  destruct (foldl collapse_step (0, 0, 0, []) blocks) as [[[i1 j1] k1] na].
  cbn [fst snd] in Hinv. change (sum_sizes []) with 0 in Hinv.
  destruct (k1 =? 0) eqn:Hk; [apply Z.eqb_eq in Hk; lia|].
  rewrite sum_sizes_app, sum_sizes_cons. change (sum_sizes []) with 0.
  cbn [fst snd]. lia.
Qed.


Lemma a_width_cons alo ahi blo bhi queue :
  a_width ((alo, ahi, blo, bhi) :: queue) = (ahi - alo) + a_width queue.
Proof. reflexivity. Qed.

Lemma b_width_cons alo ahi blo bhi queue :
  b_width ((alo, ahi, blo, bhi) :: queue) = (bhi - blo) + b_width queue.
Proof. reflexivity. Qed.

Lemma widths_nonneg queue :
  Forall window_ok queue -> 0 <= a_width queue /\ 0 <= b_width queue.
Proof.
  induction queue as [|[[[alo ahi] blo] bhi] queue IH]; intros Hok; [done|].
  rewrite a_width_cons, b_width_cons.
  apply Forall_cons in Hok as [[Ha Hb] Hok]. apply IH in Hok. lia.
Qed.

(** The blocks the queue loop adds fit into the windows still to be
    searched, in [a] and in [b]. *)
Lemma blocks_loop_sizes (sm : SequenceMatcher) (fuel : nat) :
  forall queue matching_blocks blocks,
    Forall window_ok queue ->
    blocks_loop sm fuel queue matching_blocks = Some blocks ->
    sum_sizes matching_blocks <= sum_sizes blocks
    /\ sum_sizes blocks <= sum_sizes matching_blocks + a_width queue
    /\ sum_sizes blocks <= sum_sizes matching_blocks + b_width queue.
Proof.
  induction fuel as [|fuel IH]; intros queue mb blocks Hok Hrun.
  - destruct queue as [|[[[alo ahi] blo] bhi] queue]; [|done].
    injection Hrun as <-. cbn. lia.
  - destruct queue as [|[[[alo ahi] blo] bhi] queue].
    { injection Hrun as <-. cbn. lia. }
    pose proof (widths_nonneg _ Hok) as Hw0.
    apply Forall_cons in Hok as [[Ha Hb] Hok].
    pose proof (widths_nonneg _ Hok) as Hw.
    rewrite a_width_cons, b_width_cons in *. cbn [blocks_loop] in Hrun.
    pose proof (find_longest_match_bounds sm alo ahi blo bhi Ha Hb) as Hblock.
    destruct (find_longest_match sm alo ahi blo bhi) as [[i j] k].
    unfold block_below in Hblock. cbn in Hblock.
    destruct (k =? 0) eqn:Hk.
    { apply IH in Hrun; [lia|done]. }
    destruct (alo <? i) eqn:H1, (blo <? j) eqn:H2,
             (i + k <? ahi) eqn:H3, (j + k <? bhi) eqn:H4; cbn [andb] in Hrun;
      try apply Z.ltb_lt in H1; try apply Z.ltb_lt in H2;
      try apply Z.ltb_lt in H3; try apply Z.ltb_lt in H4;
      (apply IH in Hrun;
       [ rewrite ?a_width_cons, ?b_width_cons, sum_sizes_app, sum_sizes_cons in Hrun;
         change (sum_sizes []) with 0 in Hrun; cbn [fst snd] in Hrun; lia
       | repeat (apply Forall_cons; split); cbn; try done; lia ]).
Qed.

(** The matched characters are at most as many as either string has. *)
Lemma matching_blocks_sizes (sm : SequenceMatcher) blocks :
  get_matching_blocks sm = Some blocks ->
  0 <= sum_sizes blocks <= Z.min (len (seq_a sm)) (len (seq_b sm)).
Proof.
  unfold get_matching_blocks.
  destruct (blocks_loop sm (blocks_fuel sm) _ []) as [mb|] eqn:Hrun; [|done].
  cbn. intros [= <-].
  apply blocks_loop_sizes in Hrun.
  2:{ apply Forall_cons. split; [|done]. unfold window_ok, len. lia. }
  rewrite a_width_cons, b_width_cons in Hrun. change (sum_sizes []) with 0 in Hrun.
  rewrite sum_sizes_app, collapse_sum, (sum_sizes_perm _ mb)
    by apply merge_sort_Permutation.
  rewrite sum_sizes_cons. change (sum_sizes []) with 0. cbn [fst snd a_width b_width foldr] in *.
  lia.
Qed.

Lemma calculate_ratio_bounds (matches la lb : Z) :
  0 <= la -> 0 <= lb -> 0 <= matches <= Z.min la lb ->
  (0 <= calculate_ratio matches (la + lb) <= 1)%Q.
Proof.
  intros Ha Hb Hm. unfold calculate_ratio.
  destruct (la + lb =? 0) eqn:Hz; [done|]. apply Z.eqb_neq in Hz.
  assert (Hpos : (0 < inject_Z (la + lb))%Q).
  { rewrite <- (Zlt_Qlt 0). lia. }
  rewrite <- inject_Z_mult. split.
  - apply Qle_shift_div_l; [done|]. rewrite Qmult_0_l.
    rewrite <- (Zle_Qle 0). lia.
  - apply Qle_shift_div_r; [done|]. rewrite Qmult_1_l.
    rewrite <- Zle_Qle. lia.
Qed.

(** The similarity [is_answer_correct] compares with the threshold lies
    between 0 and 1. *)
Lemma ratio_in_unit (a b : str) :
  exists similarity,
    ratio (new_matcher a b) = Some similarity
    /\ (0 <= similarity <= 1)%Q.
Proof.
  unfold ratio.
  destruct (blocks_loop_terminates (new_matcher a b)) as [blocks Hblocks].
  rewrite Hblocks. cbn. eexists. split; [reflexivity|].
  apply matching_blocks_sizes in Hblocks.
  apply calculate_ratio_bounds; unfold len in *; lia.
Qed.


(** ** The matching blocks are common substrings *)

Section Valid.

Variables a b : str.

Lemma row_indices_match i j :
  0 <= i -> j ∈ row_indices (chain_b a b) i -> matches_at a b i j.
Proof.
  intros Hi. unfold row_indices.
  destruct (chain_b_fields a b) as (-> & _ & _).
  rewrite getitem_nonneg by done.
  destruct (a !! Z.to_nat i) as [x|] eqn:Hx; [|by intros ?%elem_of_nil].
  destruct (b2j (chain_b a b) !! x) as [js|] eqn:Hget;
    [|by intros ?%elem_of_nil].
  apply chain_b_indices in Hget as ->. cbn. intros Hj.
  apply positions_elem in Hj as [Hj0 Hjx]. rewrite Z.sub_0_r in Hjx.
  split; [done|]. split; [done|]. by exists x.
Qed.

Lemma same_elt_match i j :
  0 <= i -> 0 <= j -> same_elt (chain_b a b) i j = true -> matches_at a b i j.
Proof.
  intros Hi Hj. unfold same_elt.
  destruct (chain_b_fields a b) as (-> & -> & _).
  rewrite !getitem_nonneg by done.
  destruct (a !! Z.to_nat i) as [x|] eqn:Hx; [|done].
  destruct (b !! Z.to_nat j) as [y|] eqn:Hy; [|done].
  intros Heq. apply bool_decide_eq_true_1 in Heq as ->.
  split; [done|]. split; [done|]. by exists y.
Qed.

Lemma scan_row_valid blo bhi (i : Z) (j2len : gmap Z Z) (js : list Z) :
  lens_match a b i j2len ->
  (forall j, j ∈ js -> matches_at a b i j) ->
  forall newj2len best,
    lens_match a b (i + 1) newj2len -> valid_block a b best ->
    lens_match a b (i + 1) (scan_row blo bhi i j2len js newj2len best).1
    /\ valid_block a b (scan_row blo bhi i j2len js newj2len best).2.
Proof.
  intros Hold. induction js as [|j js IH]; intros Hjs newj2len best Hnew Hbest.
  - done.
  - assert (Hrest : forall j', j' ∈ js -> matches_at a b i j')
      by (intros j' Hin; apply Hjs; by right).
    cbn [scan_row]. destruct (j <? blo); [by apply IH|].
    destruct (bhi <=? j); [done|].
    destruct best as [[besti bestj] bestsize].
    pose proof (Hjs j ltac:(left)) as Hij.
    set (k := default 0 (j2len !! (j - 1)) + 1).
    assert (Hk : 1 <= k /\ forall t, 0 <= t < k -> matches_at a b (i - t) (j - t)).
    { unfold k. destruct (j2len !! (j - 1)) as [k'|] eqn:Hget; cbn.
      - apply Hold in Hget as [Hk' Hm]. split; [lia|]. intros t Ht.
        destruct (decide (t = 0)) as [->|Hne]; [by rewrite !Z.sub_0_r|].
        replace (i - t) with (i - 1 - (t - 1)) by lia.
        replace (j - t) with (j - 1 - (t - 1)) by lia. apply Hm. lia.
      - split; [lia|]. intros t Ht. replace t with 0 by lia.
        by rewrite !Z.sub_0_r. }
    destruct Hk as [Hk1 Hkm].
    apply IH; [done| |].
    + intros j' k' Hget. destruct (decide (j = j')) as [<-|Hne].
      * rewrite lookup_insert_eq in Hget. injection Hget as <-.
        split; [done|]. intros t Ht.
        replace (i + 1 - 1 - t) with (i - t) by lia. by apply Hkm.
      * rewrite lookup_insert_ne in Hget by done. by apply Hnew.
    + destruct (bestsize <? k); [|done].
      pose proof (Hkm (k - 1) ltac:(lia)) as (H1 & H2 & _).
      unfold valid_block. cbn [fst snd].
      split; [lia|]. split; [lia|]. split; [lia|]. intros t Ht.
      replace (i - k + 1 + t) with (i - (k - 1 - t)) by lia.
      replace (j - k + 1 + t) with (j - (k - 1 - t)) by lia.
      apply Hkm. lia.
Qed.

Lemma scan_valid alo ahi blo bhi :
  0 <= alo -> 0 <= blo -> alo <= ahi ->
  valid_block a b (scan (chain_b a b) alo ahi blo bhi).2.
Proof.
  intros Ha Hb Hle. unfold scan.
  pose proof (foldl_seqZ_inv
    (fun i st => lens_match a b i st.1 /\ valid_block a b st.2)
    (scan_step (chain_b a b) blo bhi) alo (∅, (alo, blo, 0))
    (Z.to_nat (ahi - alo))) as Hinv.
  rewrite Z2Nat.id in Hinv by lia. apply Hinv.
  - split; [intros j k Hget; cbn in Hget; by rewrite lookup_empty in Hget|].
    unfold valid_block. cbn. repeat split; try lia.
  - intros i [j2len best] Hi [Hlens Hbest]. unfold scan_step. cbn [fst snd].
    apply scan_row_valid; [done| | |done].
    + intros j Hj. apply row_indices_match; [lia|done].
    + intros j k Hget. by rewrite lookup_empty in Hget.
Qed.

Lemma grow_front_valid alo blo fuel junk best :
  0 <= alo -> 0 <= blo -> valid_block a b best ->
  valid_block a b (grow_front (chain_b a b) alo blo fuel junk best).
Proof.
  intros Ha Hb. revert best.
  induction fuel as [|fuel IH]; intros [[besti bestj] bestsize] Hbest; [done|].
  cbn [grow_front].
  destruct (alo <? besti) eqn:H1; [|done].
  destruct (blo <? bestj) eqn:H2; [|done]. cbn [andb].
  destruct (eqb junk _); [|done]. cbn [andb].
  destruct (same_elt _ _ _) eqn:Hsame; [|done].
  apply Z.ltb_lt in H1, H2. apply same_elt_match in Hsame; [|lia..].
  apply IH. destruct Hbest as (Hi & Hj & Hk & Hm). cbn [fst snd] in *.
  unfold valid_block. cbn [fst snd].
  split; [lia|]. split; [lia|]. split; [lia|]. intros t Ht.
  destruct (decide (t = 0)) as [->|Hne]; [by rewrite !Z.add_0_r|].
  replace (besti - 1 + t) with (besti + (t - 1)) by lia.
  replace (bestj - 1 + t) with (bestj + (t - 1)) by lia. apply Hm. lia.
Qed.

Lemma grow_back_valid ahi bhi fuel junk best :
  valid_block a b best ->
  valid_block a b (grow_back (chain_b a b) ahi bhi fuel junk best).
Proof.
  revert best.
  induction fuel as [|fuel IH]; intros [[besti bestj] bestsize] Hbest; [done|].
  cbn [grow_back].
  destruct (besti + bestsize <? ahi); [|done].
  destruct (bestj + bestsize <? bhi); [|done]. cbn [andb].
  destruct (eqb junk _); [|done]. cbn [andb].
  destruct (same_elt _ _ _) eqn:Hsame; [|done].
  destruct Hbest as (Hi & Hj & Hk & Hm). cbn [fst snd] in *.
  apply same_elt_match in Hsame; [|lia..].
  apply IH. unfold valid_block. cbn [fst snd].
  split; [lia|]. split; [lia|]. split; [lia|]. intros t Ht.
  destruct (decide (t = bestsize)) as [->|Hne]; [done|]. apply Hm. lia.
Qed.

Lemma find_longest_match_valid alo ahi blo bhi :
  0 <= alo -> 0 <= blo -> alo <= ahi ->
  valid_block a b (find_longest_match (chain_b a b) alo ahi blo bhi).
Proof.
  intros Ha Hb Hle. unfold find_longest_match, while_front, while_back.
  apply grow_back_valid, grow_front_valid, grow_back_valid, grow_front_valid;
    try done.
  by apply scan_valid.
Qed.

Lemma blocks_loop_valid (fuel : nat) :
  forall queue matching_blocks blocks,
    Forall window_ok queue -> Forall window_nonneg queue ->
    Forall (valid_block a b) matching_blocks ->
    blocks_loop (chain_b a b) fuel queue matching_blocks = Some blocks ->
    Forall (valid_block a b) blocks.
Proof.
  induction fuel as [|fuel IH]; intros queue mb blocks Hok Hnn Hmb Hrun.
  - destruct queue as [|[[[alo ahi] blo] bhi] queue]; [|done].
    by injection Hrun as <-.
  - destruct queue as [|[[[alo ahi] blo] bhi] queue].
    { by injection Hrun as <-. }
    apply Forall_cons in Hok as [[Ha Hb] Hok].
    apply Forall_cons in Hnn as [[Ha0 Hb0] Hnn].
    cbn [blocks_loop] in Hrun.
    pose proof (find_longest_match_valid alo ahi blo bhi Ha0 Hb0 Ha) as Hvalid.
    pose proof (find_longest_match_bounds (chain_b a b) alo ahi blo bhi Ha Hb)
      as Hblock.
    destruct (find_longest_match (chain_b a b) alo ahi blo bhi) as [[i j] k].
    unfold block_below in Hblock. cbn in Hblock.
    destruct (k =? 0) eqn:Hk.
    { by eapply IH. }
    assert (Hmb' : Forall (valid_block a b) (mb ++ [(i, j, k)]))
      by (apply Forall_app; split; [done|by constructor]).
    destruct (alo <? i) eqn:H1, (blo <? j) eqn:H2,
             (i + k <? ahi) eqn:H3, (j + k <? bhi) eqn:H4; cbn [andb] in Hrun;
      try apply Z.ltb_lt in H1; try apply Z.ltb_lt in H2;
      try apply Z.ltb_lt in H3; try apply Z.ltb_lt in H4;
      (eapply IH; [| | |exact Hrun]; [| |done]);
      repeat (apply Forall_cons; split); cbn; try done; lia.
Qed.

Lemma collapse_valid (blocks : list Match) :
  Forall (valid_block a b) blocks -> Forall (valid_block a b) (collapse blocks).
Proof.
  intros Hblocks. unfold collapse.
  assert (Hinv : forall l st,
            Forall (valid_block a b) l ->
            valid_block a b st.1 -> Forall (valid_block a b) st.2 ->
            valid_block a b (foldl collapse_step st l).1
            /\ Forall (valid_block a b) (foldl collapse_step st l).2).
  { induction l as [|x l IH]; intros [[[i1 j1] k1] na] Hl Hcur Hna; [done|].
    apply Forall_cons in Hl as [Hx Hl]. cbn [foldl]. apply IH; [done|..];
      destruct x as [[i2 j2] k2]; cbn [collapse_step fst snd] in *;
      destruct ((i1 + k1 =? i2) && (j1 + k1 =? j2)) eqn:Hadj; cbn [fst snd];
      try done.
    - apply andb_true_iff in Hadj as [Hi2 Hj2].
      apply Z.eqb_eq in Hi2, Hj2. subst i2 j2.
      destruct Hcur as (Hi & Hj & Hk & Hm), Hx as (_ & _ & Hk2 & Hm2).
      cbn [fst snd] in *. unfold valid_block. cbn [fst snd].
      split; [done|]. split; [done|]. split; [lia|]. intros t Ht.
      destruct (decide (t < k1)) as [Hlt|Hge]; [apply Hm; lia|].
      replace (i1 + t) with (i1 + k1 + (t - k1)) by lia.
      replace (j1 + t) with (j1 + k1 + (t - k1)) by lia. apply Hm2. lia.
    - destruct (k1 =? 0); [done|]. apply Forall_app. split; [done|].
      by constructor. }
  destruct (Hinv blocks ((0, 0, 0), []) Hblocks) as [Hcur Hna].
  { unfold valid_block. cbn. repeat split; try lia. }
  { constructor. }
  destruct (foldl collapse_step (0, 0, 0, []) blocks) as [[[i1 j1] k1] na].
  cbn [fst snd] in *. destruct (k1 =? 0); [done|].
  apply Forall_app. split; [done|]. by constructor.
Qed.

(** Every block the matcher returns is a common substring of the two
    strings. *)
Lemma get_matching_blocks_valid blocks :
  get_matching_blocks (new_matcher a b) = Some blocks ->
  Forall (valid_block a b) blocks.
Proof.
  unfold get_matching_blocks, new_matcher.
  destruct (chain_b_fields a b) as (Hsa & Hsb & _).
  destruct (blocks_loop (chain_b a b) _ _ []) as [mb|] eqn:Hrun; [|done].
  cbn. intros [= <-].
  apply blocks_loop_valid in Hrun.
  2:{ apply Forall_cons. split; [|done]. unfold window_ok, len. lia. }
  2:{ apply Forall_cons. split; [|done]. unfold window_nonneg. lia. }
  2:{ constructor. }
  apply Forall_app. split.
  - apply collapse_valid.
    eapply Permutation_Forall; [|exact Hrun].
    symmetry. apply merge_sort_Permutation.
  - constructor; [|done]. unfold valid_block, len. cbn [fst snd].
    repeat split; try lia.
Qed.

End Valid.


(** ** [is_answer_correct] *)

(** X4: the verdict depends on the two answers through their normal forms
    only: case and punctuation play no part. *)
Theorem is_answer_correct_normal_forms (user_answer correct_answer : str)
    (threshold : Q) :
  is_answer_correct user_answer correct_answer threshold
  = is_answer_correct (clean_text user_answer) (clean_text correct_answer)
      threshold
  /\ is_answer_correct (lower user_answer) (lower correct_answer) threshold
     = is_answer_correct user_answer correct_answer threshold.
Proof.
  unfold is_answer_correct.
  by rewrite !clean_text_twice, !clean_text_lower.
Qed.

(** X5: two answers with the same normal form are judged correct, for every
    threshold up to 1. *)
Theorem is_answer_correct_same_normal_form (user_answer correct_answer : str)
    (threshold : Q) :
  (threshold <= 1)%Q ->
  clean_text user_answer = clean_text correct_answer ->
  is_answer_correct user_answer correct_answer threshold = Some true.
Proof.
  intros Ht Heq. unfold is_answer_correct, new_matcher.
  rewrite Heq, ratio_self. cbn. f_equal.
  apply Qle_bool_iff. by rewrite calculate_ratio_full.
Qed.

Lemma is_answer_correct_same_normal_form_witness :
  ((8 # 10) <= 1)%Q
  /\ clean_text (s "New York City!") = clean_text (s "  new york city")
  /\ is_answer_correct (s "New York City!") (s "  new york city") (8 # 10)
     = Some true.
Proof.
  split; [by vm_compute|]. split; [vm_compute; reflexivity|].
  apply (is_answer_correct_same_normal_form (s "New York City!")
           (s "  new york city") (8 # 10)).
  - by vm_compute.
  - vm_compute; reflexivity.
Defined.

(** X6: normal forms without a common character: the answer is judged
    correct only when both normal forms are empty. *)
Theorem is_answer_correct_nothing_in_common (user_answer correct_answer : str) :
  (forall c, c ∈ clean_text user_answer -> c ∉ clean_text correct_answer) ->
  is_answer_correct user_answer correct_answer default_threshold
  = Some (is_empty (clean_text user_answer)
          && is_empty (clean_text correct_answer)).
Proof.
  intros Hd. unfold is_answer_correct. rewrite (ratio_disjoint _ _ Hd). cbn.
  f_equal. unfold calculate_ratio, len.
  destruct (clean_text user_answer) as [|x u], (clean_text correct_answer) as [|y v];
    cbn [length is_empty andb]; try done.
  all: match goal with |- context [?n =? 0] =>
         replace (n =? 0) with false by (symmetry; apply Z.eqb_neq; lia) end.
  all: apply not_true_is_false; intros Hle; apply Qle_bool_iff in Hle;
       rewrite <- inject_Z_mult in Hle; unfold Qdiv in Hle;
       rewrite Qmult_0_l in Hle; by vm_compute in Hle.
Qed.

Lemma is_answer_correct_nothing_in_common_witness :
  (forall c, c ∈ clean_text (s "?!") -> c ∉ clean_text (s "Paris"))
  /\ is_answer_correct (s "?!") (s "Paris") default_threshold = Some false.
Proof.
  assert (Hd : forall c, c ∈ clean_text (s "?!") -> c ∉ clean_text (s "Paris")).
  { apply Forall_forall. apply (bool_decide_unpack _). vm_compute. exact I. }
  split; [exact Hd|].
  apply (is_answer_correct_nothing_in_common (s "?!") (s "Paris") Hd).
Defined.

(** X8: the threshold at its ends: above 1 nothing is accepted, not even
    the correct answer itself; at 0 or below everything is. *)
Theorem is_answer_correct_threshold_ends (user_answer correct_answer : str)
    (threshold : Q) :
  ((1 < threshold)%Q ->
     is_answer_correct user_answer correct_answer threshold = Some false)
  /\ ((threshold <= 0)%Q ->
      is_answer_correct user_answer correct_answer threshold = Some true).
Proof.
  unfold is_answer_correct.
  destruct (ratio_in_unit (clean_text user_answer)
              (clean_text correct_answer)) as (r & -> & Hr0 & Hr1).
  cbn. split; intros Ht; f_equal.
  - apply not_true_is_false. intros Hle. apply Qle_bool_iff in Hle.
    apply (Qlt_irrefl 1). eapply Qlt_le_trans; [exact Ht|].
    by eapply Qle_trans.
  - apply Qle_bool_iff. by eapply Qle_trans.
Qed.


Lemma is_answer_correct_threshold_ends_witness :
  ((1 < 2)%Q /\ is_answer_correct (s "Paris") (s "Paris") 2 = Some false)
  /\ ((0 <= 0)%Q /\ is_answer_correct (s "Paris") (s "London") 0 = Some true).
Proof.
  split; (split; [by vm_compute|]).
  - apply (proj1 (is_answer_correct_threshold_ends (s "Paris") (s "Paris") 2)).
    by vm_compute.
  - apply (proj2 (is_answer_correct_threshold_ends (s "Paris") (s "London") 0)).
    by vm_compute.
Defined.

(** ** The chunks *)

(** X10: there are no chunks exactly when the text is empty; no chunk
    is empty, and every chunk but the last has 500 characters. *)
Theorem chunks_of_sizes (text : str) :
  (chunks_of text = [] <-> text = [])
  /\ Forall (fun c => 1 <= len c) (chunks_of text)
  /\ (forall (k : nat) c,
        chunks_of text !! k = Some c ->
        (S k < length (chunks_of text))%nat -> len c = 500).
Proof.
  rewrite chunks_of_eq. set (L := len text).
  assert (HL : 0 <= L) by (unfold L, len; lia).
  assert (Hlen : Z.of_nat (length text) = L) by done.
  pose proof (Z.div_mod (L + 499) 500 ltac:(lia)) as Hdm.
  pose proof (Z.mod_pos_bound (L + 499) 500 ltac:(lia)) as Hmb.
  set (N := (L + 499) / 500) in *.
  split; [|split].
  - split.
    + intros Hnil. apply (f_equal length) in Hnil.
      rewrite length_map, length_seq in Hnil. cbn [length] in Hnil.
      destruct (decide (text = [])) as [->|Hne]; [done|].
      assert (0 < L); [|lia].
      clear -Hne. unfold L, len. destruct text; [done|]. cbn [length]. lia.
    + intros ->. reflexivity.
  - apply Forall_forall. intros c Hin.
    apply list_elem_of_In, in_map_iff in Hin. destruct Hin as (k & <- & Hk).
    apply in_seq in Hk. unfold len. rewrite length_take, length_drop. lia.
  - intros k c Hk Hlast. rewrite length_map, length_seq in Hlast.
    change (map ?f ?l) with (f <$> l) in Hk. rewrite list_lookup_fmap in Hk.
    destruct (seq 0 _ !! k) as [k'|] eqn:Hs; [|done].
    apply lookup_seq in Hs. destruct Hs as [-> _]. simpl in Hk.
    injection Hk as <-. unfold len. rewrite length_take, length_drop. lia.
Qed.


(** ** The handlers: failures *)

Section HandlerCover.

Context `{C : Collaborators}.



Lemma get_texts_events (doc : list (Exn + str)) : forall page w r w',
  get_texts page doc w = (r, w') ->
  exists evs, trace w' = trace w ++ evs
              /\ Forall (fun ev => is_file_event ev = true) evs.
Proof.
  induction doc as [|p doc IH]; intros page w r w' Hrun.
  - injection Hrun as <- <-. exists []. by rewrite app_nil_r.
  - cbn [get_texts] in Hrun. unfold bind, emit in Hrun. cbn in Hrun.
    destruct p as [e|t]; cbn in Hrun.
    + injection Hrun as <- <-. exists [EvGetText page]. split; [done|].
      by repeat constructor.
    + destruct (get_texts (S page) doc _) as [[ts|e|] w1] eqn:Hrec;
        apply IH in Hrec as (evs & Htr & Hev); cbn in *;
        injection Hrun as <- <-;
        exists (EvGetText page :: evs); rewrite Htr, <- app_assoc;
        (split; [done|]); by constructor.
Qed.

(** The extraction calls the file and the parser and nothing else: the
    state of the models and of the random source is as it was. *)
Lemma extract_events (file : UploadFile) w r w' :
  extract_text_from_pdf file w = (r, w') ->
  oracle w' = oracle w
  /\ exists evs, trace w' = trace w ++ evs
                 /\ Forall (fun ev => is_file_event ev = true) evs.
Proof.
  intros Hrun. split; [by apply extract_outcome in Hrun as (? & _)|].
  revert Hrun.
  unfold extract_text_from_pdf, try_except, bind, raise, ret, emit.
  destruct (filename file) as [name|]; cbn.
  2:{ intros [= <- <-]. exists []. by rewrite app_nil_r. }
  destruct (endswith name (s ".pdf")); cbn.
  2:{ intros [= <- <-]. exists []. by rewrite app_nil_r. }
  destruct (fitz_open (content file)) as [e|doc]; cbn.
  { intros [= <- <-]. eexists. rewrite <- app_assoc. split; [done|].
    by repeat constructor. }
  destruct (len doc =? 0); cbn.
  { intros [= <- <-]. eexists. rewrite <- app_assoc. split; [done|].
    by repeat constructor. }
  destruct (get_texts 0 doc _) as [[ts|e|] w1] eqn:Hts;
    apply get_texts_events in Hts as (evs & Htr & Hev); cbn in *;
    [ destruct (is_empty _) | | ];
    intros [= <- <-];
    exists (EvRead (content file) :: EvFitzOpen (content file) :: evs);
    rewrite Htr, <- !app_assoc; (split; [done|]); by repeat constructor.
Qed.




(** X19: a successful response holds between one and ten question records. *)
Theorem generate_questions_size file difficulty w questions w' :
  generate_questions file difficulty w = (Ok questions, w') ->
  (1 <= length questions <= 10)%nat.
Proof.
  unfold generate_questions, questions_from_text, bind.
  destruct (extract_text_from_pdf file w) as [[text|e1|] w1]; [|done..].
  destruct (is_empty text); [done|].
  destruct (for_each (chunk_step difficulty) (chunks_of text) [] w1)
    as [[qs|e1|] w2]; [|done..].
  destruct qs as [|q qs]; [done|]. intros [= <- <-].
  change (q :: take 9 qs) with (take 10 (q :: qs)).
  rewrite length_take. cbn [length]. lia.
Qed.


(** ** The handlers: what they call *)

Lemma count_events_app kind evs1 evs2 :
  count_events kind (evs1 ++ evs2)
  = (count_events kind evs1 + count_events kind evs2)%nat.
Proof. unfold count_events. by rewrite List.filter_app, length_app. Qed.

Lemma count_events_none kind evs :
  Forall (fun ev => kind ev = false) evs -> count_events kind evs = 0%nat.
Proof.
  unfold count_events. induction 1 as [|ev evs Hev _ IH]; [done|].
  cbn. by rewrite Hev.
Qed.

Lemma first_generated_events (prompt : str) w :
  exists w', trace w' = trace w ++ [EvGenerator prompt 50 1]
    /\ ((exists t, first_generated prompt w = (Ok t, w'))
        \/ (exists e, first_generated prompt w = (Raise e, w'))).
Proof.
  unfold first_generated, run_generator, call_oracle, bind, of_sum, ret, raise.
  destruct (generator prompt 50 1 (oracle w)) as [[e|[|t out]] o]; cbn;
    eexists; (split; [|eauto]); done.
Qed.

(** [generate_possible_answers] never raises.  It asks the generator at
    most four times, with [max_length=50] and one sample each time, and
    not at all for a yes/no question or an unknown type, for which it
    returns the fixed pair and the empty list. *)
Lemma possible_answers_events (q answer_type : str) w :
  exists ans w' evs,
    generate_possible_answers q answer_type w = (Ok ans, w')
    /\ trace w' = trace w ++ evs
    /\ Forall (fun ev => is_answer_prompt ev = true) evs
    /\ (length evs <= 4)%nat
    /\ (answer_type = SiNo -> ans = [Si; No] /\ w' = w)
    /\ (answer_type ∉ ANSWER_TYPES -> ans = [] /\ w' = w).
Proof.
  unfold generate_possible_answers, try_except, str_eqb.
  destruct (decide (answer_type = MCQ)) as [->|Hm].
  { rewrite bool_decide_eq_true_2 by done. unfold bind.
    repeat match goal with
    | |- context [first_generated ?p ?w0] =>
        let H := fresh "Hev" in
        destruct (first_generated_events p w0)
          as (? & H & [(? & ->)|(? & ->)])
    end; cbn;
    eexists _, _, _; (split; [reflexivity|]);
    repeat match goal with H : trace ?x = _ |- context [trace ?x] =>
             rewrite H; clear H end;
    rewrite <- ?app_assoc; cbn [app].
    all: split; [reflexivity|].
    all: split; [by repeat constructor|].
    all: split; [cbn [length]; lia|].
    all: split; [intros Hty; discriminate Hty|].
    all: intros Hty; exfalso; apply Hty; unfold ANSWER_TYPES; set_solver. }
  rewrite (bool_decide_eq_false_2 (answer_type = MCQ)) by done.
  destruct (decide (answer_type = SiNo)) as [->|Hs].
  { rewrite bool_decide_eq_true_2 by done. cbn.
    exists [Si; No], w, []. rewrite app_nil_r.
    split; [done|]. split; [done|]. split; [done|].
    split; [cbn [length]; lia|]. split; [done|].
    intros Hty. exfalso. apply Hty. unfold ANSWER_TYPES. set_solver. }
  rewrite (bool_decide_eq_false_2 (answer_type = SiNo)) by done.
  destruct (decide (answer_type = RespuestaCorta)) as [->|Hr].
  { rewrite bool_decide_eq_true_2 by done. unfold bind.
    match goal with
    | |- context [first_generated ?p ?w0] =>
        destruct (first_generated_events p w0)
          as (? & Hev & [(? & ->)|(? & ->)])
    end; cbn; eexists _, _, _; (split; [reflexivity|]).
    all: split; [exact Hev|].
    all: split; [by repeat constructor|].
    all: split; [cbn [length]; lia|].
    all: split; [intros Hty; discriminate Hty|].
    all: intros Hty; exfalso; apply Hty; unfold ANSWER_TYPES; set_solver. }
  rewrite (bool_decide_eq_false_2 (answer_type = RespuestaCorta)) by done.
  cbn. exists [], w, []. rewrite app_nil_r.
  split; [done|]. split; [done|]. split; [done|].
  split; [cbn [length]; lia|]. by split.
Qed.


(** [generate_answer_type] never raises: it draws once and returns the
    answer type at the drawn index modulo 3. *)
Lemma answer_type_events w :
  exists answer_type w',
    generate_answer_type w = (Ok answer_type, w')
    /\ ANSWER_TYPES !! ((random_draw (oracle w)).1 mod 3)%nat = Some answer_type
    /\ answer_type ∈ ANSWER_TYPES
    /\ trace w' = trace w ++ [EvRandomChoice]
    /\ oracle w' = (random_draw (oracle w)).2.
Proof.
  unfold generate_answer_type, random_choice.
  destruct (random_draw (oracle w)) as [r o]. cbn [fst snd].
  change (length ANSWER_TYPES) with 3%nat.
  assert (Hr : (r mod 3 < 3)%nat) by (apply Nat.mod_upper_bound; done).
  destruct (r mod 3)%nat as [|[|[|n]]]; [| | |lia];
    cbn; eexists _, _; (split; [reflexivity|]); (split; [reflexivity|]);
    (split; [unfold ANSWER_TYPES; set_solver|]); done.
Qed.

Lemma for_each_events {A St} (ok : Event -> Prop) (kind : Event -> bool)
    (body : St -> A -> M St) :
  (forall acc x w r w', body acc x w = (r, w') ->
     exists evs, trace w' = trace w ++ evs /\ Forall ok evs
                 /\ (count_events kind evs <= 1)%nat) ->
  forall l acc w r w',
    for_each body l acc w = (r, w') ->
    exists evs, trace w' = trace w ++ evs /\ Forall ok evs
                /\ (count_events kind evs <= length l)%nat.
Proof.
  intros Hbody l. induction l as [|x l IH]; intros acc w r w' Hrun.
  - injection Hrun as <- <-. exists []. rewrite app_nil_r.
    split; [done|]. split; [done|]. cbn. lia.
  - cbn [for_each] in Hrun. unfold bind in Hrun.
    destruct (body acc x w) as [[acc1|e1|] w1] eqn:Hb;
      apply Hbody in Hb as (evs1 & Htr1 & Hok1 & Hc1).
    + apply IH in Hrun as (evs2 & Htr2 & Hok2 & Hc2).
      exists (evs1 ++ evs2). rewrite Htr2, Htr1, <- app_assoc.
      split; [done|]. split; [by apply Forall_app|].
      rewrite count_events_app. cbn [length]. lia.
    + injection Hrun as <- <-. exists evs1.
      split; [done|]. split; [done|]. cbn [length]. lia.
    + injection Hrun as <- <-. exists evs1.
      split; [done|]. split; [done|]. cbn [length]. lia.
Qed.

Lemma question_step_events questions text w r w' :
  question_step questions text w = (r, w') ->
  exists evs, trace w' = trace w ++ evs
    /\ Forall (fun ev => is_qa_call ev = false /\ is_question_prompt ev = false) evs
    /\ (count_events is_question_prompt evs <= 1)%nat.
Proof.
  unfold question_step.
  destruct (is_empty (clean_generated_text text)); cbn.
  { intros [= <- <-]. exists []. rewrite app_nil_r. split; [done|].
    split; [done|]. cbn. lia. }
  unfold bind.
  destruct (answer_type_events w) as (ty & w1 & -> & _ & _ & Htr1 & _).
  destruct (possible_answers_events (clean_generated_text text) ty w1)
    as (ans & w2 & evs & -> & Htr2 & Hev & _).
  intros [= <- <-]. exists (EvRandomChoice :: evs).
  rewrite Htr2, Htr1, <- app_assoc. split; [done|].
  assert (Hall : Forall (fun ev => is_qa_call ev = false
                                   /\ is_question_prompt ev = false)
                        (EvRandomChoice :: evs)).
  { constructor; [done|]. eapply Forall_impl; [exact Hev|].
    intros [] Hp; try done. cbn in *.
    apply andb_true_iff in Hp as [Hm _]. apply Z.eqb_eq in Hm. by subst. }
  split; [done|]. rewrite count_events_none; [lia|].
  eapply Forall_impl; [exact Hall|]. by intros ev [_ ?].
Qed.

Lemma chunk_step_events difficulty questions chunk w r w' :
  chunk_step difficulty questions chunk w = (r, w') ->
  exists evs, trace w' = trace w ++ evs
    /\ Forall (fun ev => is_qa_call ev = false) evs
    /\ (count_events is_question_prompt evs <= 1)%nat.
Proof.
  unfold chunk_step, try_except, bind, run_generator, call_oracle, of_sum.
  destruct (generator _ 128 2 (oracle w)) as [[e|generated] o]; cbn.
  { intros [= <- <-]. eexists [_]. split; [done|]. split; [by repeat constructor|].
    cbn. lia. }
  match goal with
  | |- context [for_each question_step generated questions ?w0] =>
      destruct (for_each question_step generated questions w0)
        as [[qs|e|] w1] eqn:Hloop
  end;
    apply (for_each_events _ is_question_prompt _ question_step_events)
      in Hloop as (evs & Htr & Hok & _);
    cbn in Htr; intros [= <- <-];
    (eexists (_ :: evs); rewrite Htr, <- app_assoc; split; [reflexivity|]);
    (split; [constructor; [done|]; eapply Forall_impl; [exact Hok|];
             by intros ev [? _] |]);
    unfold count_events; cbn [List.filter is_question_prompt];
    change ((128 =? 128) && (2 =? 2)) with true; cbn [length];
    fold (count_events is_question_prompt evs);
    (rewrite count_events_none;
     [lia | eapply Forall_impl; [exact Hok|]; by intros ev [_ ?]]).
Qed.

(** [generate_questions] never calls the question answerer, and it
    prompts the generator for questions at most five times. *)
Lemma generate_questions_events file difficulty w r w' :
  generate_questions file difficulty w = (r, w') ->
  exists evs, trace w' = trace w ++ evs
    /\ Forall (fun ev => is_qa_call ev = false) evs
    /\ (count_events is_question_prompt evs <= 5)%nat.
Proof.
  unfold generate_questions, questions_from_text, bind.
  destruct (extract_text_from_pdf file w) as [[text|e1|] w1] eqn:Hext;
    apply extract_events in Hext as (_ & evs1 & Htr1 & Hfile).
  2,3: intros [= <- <-]; exists evs1; (split; [done|]); split;
       [ eapply Forall_impl; [exact Hfile|]; by intros [] |
         rewrite count_events_none;
         [lia | eapply Forall_impl; [exact Hfile|]; by intros []] ].
  assert (Hq : Forall (fun ev => is_qa_call ev = false) evs1)
    by (eapply Forall_impl; [exact Hfile|]; by intros []).
  assert (Hc : count_events is_question_prompt evs1 = 0%nat)
    by (apply count_events_none; eapply Forall_impl; [exact Hfile|]; by intros []).
  destruct (is_empty text).
  { intros [= <- <-]. exists evs1. split; [done|]. split; [done|]. lia. }
  destruct (for_each (chunk_step difficulty) (chunks_of text) [] w1)
    as [[qs|e1|] w2] eqn:Hloop;
    apply (for_each_events _ is_question_prompt _ (chunk_step_events difficulty))
      in Hloop as (evs2 & Htr2 & Hok2 & Hc2);
    assert (Hlen : (length (chunks_of text) <= 5)%nat)
      by (unfold chunks_of; rewrite length_take; lia);
    [destruct qs| |]; intros [= <- <-];
    exists (evs1 ++ evs2); rewrite Htr2, Htr1, <- app_assoc;
    (split; [done|]); (split; [by apply Forall_app|]);
    rewrite count_events_app; lia.
Qed.


(** ** [validate_answers] *)

Lemma validate_with_context_outcome question user_answer context w1 r w2 :
  validate_with_context question user_answer context w1 = (r, w2) ->
  (r = Raise InvalidInput /\ w2 = w1
   /\ (question = [] \/ user_answer = [] \/ context = []))
  \/ (question <> [] /\ user_answer <> [] /\ context <> []
      /\ trace w2 = trace w1 ++ [EvQA question context]
      /\ ((exists e0, r = Raise (HTTPException 500
                                  (s "AI validation error: " ++ str_exc e0))
                      /\ (qa_pipeline question context (oracle w1)).1 = inl e0)
          \/ (r = Raise (HTTPException 500
                           (s "AI validation error: " ++ str_exc NoAnswerFound))
              /\ exists response,
                   (qa_pipeline question context (oracle w1)).1 = inr response
                   /\ default [] response = [])
          \/ (exists correct_answer ok,
                (qa_pipeline question context (oracle w1)).1
                = inr (Some correct_answer)
                /\ correct_answer <> []
                /\ is_answer_correct user_answer correct_answer default_threshold
                   = Some ok
                /\ r = Ok {| v_question := question;
                             v_user_answer := user_answer;
                             v_correct_answer := correct_answer;
                             v_is_correct := if ok then s "yes" else s "no" |}))).
Proof.
  unfold validate_with_context.
  destruct question as [|q0 question].
  { intros [= <- <-]. left. eauto. }
  destruct user_answer as [|u0 user_answer].
  { intros [= <- <-]. left. eauto. }
  destruct context as [|c0 context].
  { intros [= <- <-]. left. eauto. }
  cbn [is_empty orb].
  unfold try_except, call_oracle, of_sum, of_option, bind, ret, raise.
  destruct (qa_pipeline _ _ (oracle w1)) as [[e|response] o];
    cbn -[is_answer_correct].
  { intros [= <- <-]. right. repeat (split; [done|]). left. by exists e. }
  destruct response as [[|a0 correct_answer]|]; cbn -[is_answer_correct].
  1,3: intros [= <- <-]; right; repeat (split; [done|]); right; left;
       split; [done|]; by eexists.
  destruct (is_answer_correct_total (u0 :: user_answer) (a0 :: correct_answer)
              default_threshold) as [ok Hok].
  rewrite Hok. cbn. intros [= <- <-]. right. repeat (split; [done|]).
  right; right. exists (a0 :: correct_answer), ok. by destruct ok.
Qed.


(** X23: a successful validation echoes the question and the user answer,
    carries the non-empty answer of the question answerer, and says
    [yes] exactly when [is_answer_correct] accepts the user answer
    against it, [no] otherwise. *)
Theorem validate_answers_success file question user_answer w v w' :
  validate_answers file question user_answer w = (Ok v, w') ->
  v_question v = question /\ question <> []
  /\ v_user_answer v = user_answer /\ user_answer <> []
  /\ v_correct_answer v <> []
  /\ exists ok,
       is_answer_correct user_answer (v_correct_answer v) default_threshold
       = Some ok
       /\ v_is_correct v = (if ok then s "yes" else s "no").
Proof.
  unfold validate_answers, bind.
  destruct (extract_text_from_pdf file w) as [[context|e1|] w1]; [|done..].
  intros Hrun. apply validate_with_context_outcome in Hrun
    as [(? & _) | (Hq & Hu & _ & _ & [(e0 & ? & _) | [(? & _) | (ca & ok & _ & Hca & Hok & Hv)]])];
    try done.
  injection Hv as ->. cbn. repeat (split; [done|]). by exists ok.
Qed.

(** X24: when the question answerer gives no answer, or an empty one, the
    400 raised for it inside the [try] leaves as a 500. *)
Theorem validate_answers_no_answer file question user_answer w context w1
    response o :
  extract_text_from_pdf file w = (Ok context, w1) ->
  question <> [] -> user_answer <> [] -> context <> [] ->
  qa_pipeline question context (oracle w1) = (inr response, o) ->
  default [] response = [] ->
  validate_answers file question user_answer w
  = (Raise (HTTPException 500
              (s "AI validation error: " ++ str_exc NoAnswerFound)),
     {| oracle := o; trace := trace w1 ++ [EvQA question context] |}).
Proof.
  intros Hext Hq Hu Hc Hqa Hresp.
  unfold validate_answers, validate_with_context, bind. rewrite Hext.
  destruct question as [|q0 question]; [done|].
  destruct user_answer as [|u0 user_answer]; [done|].
  destruct context as [|c0 context]; [done|]. cbn [is_empty orb].
  unfold try_except, call_oracle, of_sum, of_option, bind, ret, raise.
  rewrite Hqa. cbn -[is_answer_correct]. by rewrite Hresp.
Qed.

(** [validate_answers] never calls the generator or the random source,
    and it calls the question answerer at most once. *)
Lemma validate_answers_events file question user_answer w r w' :
  validate_answers file question user_answer w = (r, w') ->
  exists evs, trace w' = trace w ++ evs
    /\ Forall (fun ev => is_generation_event ev = false) evs
    /\ (count_events is_qa_call evs <= 1)%nat.
Proof.
  unfold validate_answers, bind.
  destruct (extract_text_from_pdf file w) as [[context|e1|] w1] eqn:Hext;
    apply extract_events in Hext as (_ & evs1 & Htr1 & Hfile).
  2,3: intros [= <- <-]; exists evs1; (split; [done|]); split;
       [ eapply Forall_impl; [exact Hfile|]; by intros [] |
         rewrite count_events_none;
         [lia | eapply Forall_impl; [exact Hfile|]; by intros []] ].
  assert (Hg : Forall (fun ev => is_generation_event ev = false) evs1)
    by (eapply Forall_impl; [exact Hfile|]; by intros []).
  assert (Hc : count_events is_qa_call evs1 = 0%nat)
    by (apply count_events_none; eapply Forall_impl; [exact Hfile|]; by intros []).
  intros Hrun. apply validate_with_context_outcome in Hrun
    as [(_ & -> & _) | (_ & _ & _ & Htr2 & _)].
  - exists evs1. split; [done|]. split; [done|]. lia.
  - exists (evs1 ++ [EvQA question context]).
    rewrite Htr2, Htr1, <- app_assoc. split; [done|].
    split; [apply Forall_app; split; [done|by repeat constructor]|].
    rewrite count_events_app, Hc. cbn. lia.
Qed.

(** ** The extraction, page by page *)

Lemma get_texts_all (ts : list str) : forall page w,
  get_texts page (map inr ts) w
  = (Ok ts, {| oracle := oracle w;
               trace := trace w ++ map EvGetText (seq page (length ts)) |}).
Proof.
  induction ts as [|t ts IH]; intros page w.
  - cbn. rewrite app_nil_r. by destruct w.
  - cbn [map get_texts]. unfold bind, emit, of_sum, ret. cbn.
    rewrite IH. cbn. by rewrite <- app_assoc.
Qed.

Lemma get_texts_ok (doc : list (Exn + str)) : forall page w ts w',
  get_texts page doc w = (Ok ts, w') -> doc = map inr ts.
Proof.
  induction doc as [|p doc IH]; intros page w ts w'.
  - by intros [= <- <-].
  - cbn [get_texts]. unfold bind, emit, of_sum, ret, raise. cbn.
    destruct p as [e|t]; [done|].
    destruct (get_texts (S page) doc _) as [[ts1|e|] w1] eqn:Hrec; [|done..].
    intros [= <- <-]. apply IH in Hrec as ->. done.
Qed.

(** X13: for a file named [*.pdf] whose pages all give their text, the
    extraction reads the file, opens it and asks every page in order; the
    texts are joined with newlines; a blank text leaves as a 500,
    anything else comes back as the first 5000 characters, trimmed. *)
Theorem extract_parsed_document (file : UploadFile) name (ts : list str) w :
  filename file = Some name ->
  endswith name (s ".pdf") = true ->
  fitz_open (content file) = inr (map inr ts) ->
  ts <> [] ->
  extract_text_from_pdf file w
  = (if is_empty (strip (join (s (String "010" EmptyString)) ts))
     then Raise (HTTPException 500
                   (s "Error processing PDF: " ++ str_exc NoExtractableText))
     else Ok (strip (slice (join (s (String "010" EmptyString)) ts) 0 5000)),
     {| oracle := oracle w;
        trace := trace w ++ EvRead (content file) :: EvFitzOpen (content file)
                            :: map EvGetText (seq 0 (length ts)) |}).
Proof.
  intros Hname Hend Hopen Hts.
  unfold extract_text_from_pdf, try_except, bind, raise, ret, emit.
  rewrite Hname, Hend, Hopen. cbn [negb of_sum].
  assert (Hlen : (len (map (@inr Exn str) ts) =? 0) = false).
  { apply Z.eqb_neq. unfold len. rewrite length_map. destruct ts; [done|].
    cbn [length]. lia. }
  unfold ret. rewrite Hlen, get_texts_all. cbn [oracle trace].
  rewrite <- !app_assoc. cbn [app].
  by destruct (is_empty (strip (join (s (String "010" EmptyString)) ts))).
Qed.

(** X14: a text the extraction returns is the trimmed first 5000
    characters of the page texts joined with newlines; there is at least
    one page, the joined text is not blank, and the result has at most
    5000 characters and no whitespace at either end. *)
Theorem extract_success_is_trimmed_prefix (file : UploadFile) w text w' :
  extract_text_from_pdf file w = (Ok text, w') ->
  exists ts,
    fitz_open (content file) = inr (map inr ts) /\ ts <> []
    /\ is_empty (strip (join (s (String "010" EmptyString)) ts)) = false
    /\ text = strip (slice (join (s (String "010" EmptyString)) ts) 0 5000)
    /\ len text <= 5000
    /\ (forall c, head text = Some c -> isspace c = false)
    /\ (forall c, last text = Some c -> isspace c = false).
Proof.
  intros Hrun. pose proof (extract_success_shape _ _ _ _ Hrun) as (Hl & Hh & Ht).
  revert Hrun.
  unfold extract_text_from_pdf, try_except, bind, raise, ret, emit.
  destruct (filename file) as [name|]; cbn; [|done].
  destruct (endswith name (s ".pdf")); cbn; [|done].
  destruct (fitz_open (content file)) as [e|doc]; cbn; [done|].
  destruct (len doc =? 0) eqn:Hdoc; cbn; [done|].
  destruct (get_texts 0 doc _) as [[ts|e|] w1] eqn:Hts; cbn; [|done..].
  destruct (is_empty _) eqn:Hblank; [done|]. intros [= <- <-].
  apply get_texts_ok in Hts as ->. exists ts.
  split; [done|]. split; [by intros ->|]. done.
Qed.


(** X12: the extraction calls the file and the parser and nothing
    else; the state of the models and of the random source is as it
    was. *)
Theorem extract_touches_only_the_file (file : UploadFile) w :
  oracle (extract_text_from_pdf file w).2 = oracle w
  /\ exists evs,
       trace (extract_text_from_pdf file w).2 = trace w ++ evs
       /\ Forall (fun ev => is_file_event ev = true) evs
       /\ count_events is_qa_call evs = 0%nat
       /\ count_events is_generation_event evs = 0%nat.
Proof.
  destruct (extract_text_from_pdf file w) as [r w'] eqn:Hrun.
  apply extract_events in Hrun as (Ho & evs & Htr & Hev). cbn [snd].
  split; [done|]. exists evs. split; [done|]. split; [done|].
  split; apply count_events_none; (eapply Forall_impl; [exact Hev|]);
    by intros [].
Qed.

(** ** The question loop *)


(** X17: [generate_answer_type] never raises: it draws once from the
    random source and returns the answer type at the drawn index modulo
    3, so each of the three types and no other can come out. *)
Theorem generate_answer_type_draws_once w :
  exists answer_type,
    (generate_answer_type w).1 = Ok answer_type
    /\ ANSWER_TYPES !! ((random_draw (oracle w)).1 mod 3)%nat = Some answer_type
    /\ (answer_type = MCQ \/ answer_type = SiNo \/ answer_type = RespuestaCorta)
    /\ trace (generate_answer_type w).2 = trace w ++ [EvRandomChoice].
Proof.
  destruct (answer_type_events w) as (ty & w' & Hrun & Hidx & Hin & Htr & _).
  rewrite Hrun. cbn [fst snd]. exists ty. repeat (split; [done|]).
  split; [|done]. unfold ANSWER_TYPES in Hin.
  rewrite !elem_of_cons, elem_of_nil in Hin. tauto.
Qed.


Lemma question_loop_rejects (generated : list str) :
  Forall (fun t => endswith (strip t) (s "?") = false) generated ->
  forall questions w,
    for_each question_step generated questions w = (Ok questions, w).
Proof.
  induction 1 as [|t generated Ht _ IH]; intros questions w; [done|].
  cbn [for_each]. unfold bind, question_step, clean_generated_text.
  rewrite Ht. cbn. apply IH.
Qed.

(** X21: with a generator that answers every question prompt and never
    gives a text that ends, once trimmed, with a question mark,
    [generate_questions] on a non-empty text ends in NoQuestionsGenerated. *)
Theorem generate_questions_without_questions file difficulty w text w1 :
  (forall prompt o, exists generated o',
      generator prompt 128 2 o = (inr generated, o')
      /\ Forall (fun t => endswith (strip t) (s "?") = false) generated) ->
  extract_text_from_pdf file w = (Ok text, w1) ->
  is_empty text = false ->
  exists w2,
    generate_questions file difficulty w = (Raise NoQuestionsGenerated, w2).
Proof.
  intros Hgen Hext Htext.
  assert (Hloop : forall chunks w0, exists w2,
            for_each (chunk_step difficulty) chunks [] w0 = (Ok [], w2)).
  { induction chunks as [|chunk chunks IH]; intros w0; [by eexists|].
    cbn [for_each]. unfold bind at 1.
    unfold chunk_step, try_except, bind, run_generator, call_oracle, of_sum.
    match goal with |- context [generator ?p 128 2 ?o] =>
      destruct (Hgen p o) as (generated & o' & -> & Hrej) end.
    cbn. rewrite question_loop_rejects by done. apply IH. }
  destruct (Hloop (chunks_of text) w1) as [w2 Hrun]. exists w2.
  unfold generate_questions, questions_from_text, bind.
  by rewrite Hext, Htext, Hrun.
Qed.

(** X20: [generate_questions] never calls the question answerer, and
    it prompts the generator for questions at most five times. *)
Theorem generate_questions_calls file difficulty w :
  exists evs,
    trace (generate_questions file difficulty w).2 = trace w ++ evs
    /\ count_events is_qa_call evs = 0%nat
    /\ (count_events is_question_prompt evs <= 5)%nat.
Proof.
  destruct (generate_questions file difficulty w) as [r w'] eqn:Hrun.
  apply generate_questions_events in Hrun as (evs & Htr & Hqa & Hcount).
  exists evs. split; [done|]. split; [by apply count_events_none|done].
Qed.

(** X25: [validate_answers] never calls the generator or the random
    source, and it calls the question answerer at most once. *)
Theorem validate_answers_calls file question user_answer w :
  exists evs,
    trace (validate_answers file question user_answer w).2 = trace w ++ evs
    /\ count_events is_generation_event evs = 0%nat
    /\ (count_events is_qa_call evs <= 1)%nat.
Proof.
  destruct (validate_answers file question user_answer w) as [r w'] eqn:Hrun.
  apply validate_answers_events in Hrun as (evs & Htr & Hgen & Hcount).
  exists evs. split; [done|]. split; [by apply count_events_none|done].
Qed.

End HandlerCover.

(** ** The similarity *)

(** X7: the matcher always comes back; the similarity is twice the
    total size of its blocks over the two lengths, that total is at most
    the length of the shorter string, and the similarity lies between 0
    and 1. *)
Theorem similarity_between_0_and_1 (a b : str) :
  exists blocks similarity,
    get_matching_blocks (new_matcher a b) = Some blocks
    /\ ratio (new_matcher a b) = Some similarity
    /\ similarity = calculate_ratio (sum_sizes blocks) (len a + len b)
    /\ 0 <= sum_sizes blocks <= Z.min (len a) (len b)
    /\ (0 <= similarity <= 1)%Q.
Proof.
  destruct (blocks_loop_terminates (new_matcher a b)) as [blocks Hblocks].
  destruct (ratio_in_unit a b) as (r & Hr & Hbounds).
  exists blocks, r. split; [done|]. split; [done|].
  pose proof (matching_blocks_sizes _ _ Hblocks) as Hsizes.
  unfold ratio in Hr. rewrite Hblocks in Hr. cbn in Hr. injection Hr as <-.
  unfold new_matcher in *.
  destruct (chain_b_fields a b) as (Hsa & Hsb & _). rewrite Hsa, Hsb in *.
  done.
Qed.

(** X9: every block the similarity counts is a common substring of the
    two strings: for a block [(i, j, k)], [a[i + t] == b[j + t]] for
    every [t] below [k]. *)
Theorem matching_blocks_are_common_substrings (a b : str) :
  exists blocks,
    get_matching_blocks (new_matcher a b) = Some blocks
    /\ Forall (valid_block a b) blocks.
Proof.
  destruct (blocks_loop_terminates (new_matcher a b)) as [blocks Hblocks].
  exists blocks. split; [done|]. by apply get_matching_blocks_valid.
Qed.

(** X2: normalising twice is normalising once, and lowercasing first
    changes nothing. *)
Theorem clean_text_idempotent (text : str) :
  clean_text (clean_text text) = clean_text text
  /\ clean_text (lower text) = clean_text text.
Proof. split; [apply clean_text_twice | apply clean_text_lower]. Qed.

(** ** Witnesses *)

Lemma extract_parsed_document_witness :
  filename (pdf "doc.pdf") = Some (s "doc.pdf")
  /\ endswith (s "doc.pdf") (s ".pdf") = true
  /\ @fitz_open demo_why (content (pdf "doc.pdf")) = inr (map inr [s "Some text."])
  /\ [s "Some text."] <> []
  /\ extract_why.1 = Ok (s "Some text.").
Proof.
  split; [reflexivity|]. split; [vm_compute; reflexivity|].
  split; [reflexivity|]. split; [done|].
  unfold extract_why.
  rewrite (@extract_parsed_document demo_why (pdf "doc.pdf") (s "doc.pdf")
             [s "Some text."] (@start demo_why 0%nat)).
  - vm_compute; reflexivity.
  - reflexivity.
  - vm_compute; reflexivity.
  - reflexivity.
  - done.
Defined.

Lemma extract_success_is_trimmed_prefix_witness :
  extract_why.1 = Ok (s "Some text.")
  /\ exists ts,
       @fitz_open demo_why (content (pdf "doc.pdf")) = inr (map inr ts)
       /\ ts <> []
       /\ is_empty (strip (join (s (String "010" EmptyString)) ts)) = false
       /\ s "Some text." = strip (slice (join (s (String "010" EmptyString)) ts) 0 5000)
       /\ len (s "Some text.") <= 5000
       /\ (forall c, head (s "Some text.") = Some c -> isspace c = false)
       /\ (forall c, last (s "Some text.") = Some c -> isspace c = false).
Proof.
  split; [vm_compute; reflexivity|].
  apply (@extract_success_is_trimmed_prefix demo_why (pdf "doc.pdf")
           (@start demo_why 0%nat) (s "Some text.") extract_why.2).
  vm_compute; reflexivity.
Defined.


Lemma generate_questions_without_questions_witness :
  extract_statements.1 = Ok (s "Some text.")
  /\ is_empty (s "Some text.") = false
  /\ exists w2,
       @generate_questions demo_statements (pdf "doc.pdf") (s "medium")
         (@start demo_statements 0%nat)
       = (Raise NoQuestionsGenerated, w2).
Proof.
  split; [vm_compute; reflexivity|]. split; [reflexivity|].
  apply (@generate_questions_without_questions demo_statements (pdf "doc.pdf")
           (s "medium") (@start demo_statements 0%nat) (s "Some text.")
           extract_statements.2).
  - intros prompt o. exists [s "It is."; s "So it is"], (S o).
    split; [reflexivity|]. repeat constructor; vm_compute; reflexivity.
  - vm_compute; reflexivity.
  - reflexivity.
Defined.


Lemma generate_questions_size_witness :
  run_once.1 = Ok [what_is_it] /\ (1 <= length [what_is_it] <= 10)%nat.
Proof.
  split; [vm_compute; reflexivity|].
  apply (@generate_questions_size demo_once (pdf "doc.pdf") (s "medium")
           (@start demo_once 0%nat) [what_is_it] run_once.2).
  vm_compute; reflexivity.
Defined.


Lemma validate_answers_success_witness :
  (@validate_answers demo_why (pdf "doc.pdf") (s "Which city?") (s "paris!")
     (@start demo_why 0%nat)).1
  = Ok {| v_question := s "Which city?"; v_user_answer := s "paris!";
          v_correct_answer := s "Paris"; v_is_correct := s "yes" |}
  /\ exists ok,
       is_answer_correct (s "paris!") (s "Paris") default_threshold = Some ok
       /\ s "yes" = (if ok then s "yes" else s "no").
Proof.
  split; [vm_compute; reflexivity|].
  apply (@validate_answers_success demo_why (pdf "doc.pdf") (s "Which city?")
           (s "paris!") (@start demo_why 0%nat)
           {| v_question := s "Which city?"; v_user_answer := s "paris!";
              v_correct_answer := s "Paris"; v_is_correct := s "yes" |}
           (@validate_answers demo_why (pdf "doc.pdf") (s "Which city?")
              (s "paris!") (@start demo_why 0%nat)).2).
  vm_compute; reflexivity.
Defined.

Lemma validate_answers_no_answer_witness :
  (@extract_text_from_pdf demo_once (pdf "doc.pdf") (@start demo_once 0%nat)).1
  = Ok (s "Some text.")
  /\ (@validate_answers demo_once (pdf "doc.pdf") (s "Which city?") (s "Paris")
        (@start demo_once 0%nat)).1
     = Raise (HTTPException 500
                (s "AI validation error: " ++ starlette_str NoAnswerFound)).
Proof.
  split; [vm_compute; reflexivity|].
  rewrite (@validate_answers_no_answer demo_once (pdf "doc.pdf")
             (s "Which city?") (s "Paris") (@start demo_once 0%nat)
             (s "Some text.")
             (@extract_text_from_pdf demo_once (pdf "doc.pdf")
                (@start demo_once 0%nat)).2 None 0%nat).
  - reflexivity.
  - vm_compute; reflexivity.
  - done.
  - done.
  - done.
  - reflexivity.
  - reflexivity.
Defined.

End CoverFacts.
